(** * osu-table downloader: a shallow embedding of [osutableGUI.py]

    The development follows the source file top to bottom: the string
    helpers ([extract_beatmapset_id], [sanitize_filename]), the download
    loop ([download_missing_maps]), the archive pass ([extract_osz_files])
    and the background task of [start_download].

    Modelling conventions.
    - A catalog entry is a record.  The keys the source indexes with
      [m["..."]] (url, title, artist) are plain strings; the keys it reads
      with [m.get("...")] (level, md5) are optional.  The level is any
      JSON value, the hash a string.
    - Python [str] is [string]: one character per byte (ASCII / Latin-1).
      Python [float] is binary64, here [spec_float]; [int] is [Z].
    - The download directory is a finite map from entry names to entries,
      read after [os.makedirs(download_root, exist_ok=True)].  Opening
      the output file of a download may fail: the interpreter refuses a
      name with a NUL character, and the file system may refuse any
      other name (length, rights, space), which is the parameter
      [can_open].
    - [task] is the body of the thread on the runs where no exception
      leaves it: the song database, when its file exists, answers the
      query with the rows of its [md5] column, and [os.makedirs]
      succeeds.  [run_thread] is the thread with the exits by exception
      written out: the database that cannot be queried, the catalog
      element that is not an object, the directory that cannot be made.
      An object that lacks one of the keys url, title or artist, on which
      the download loop would raise, is outside both.
    - The outside world (download service, catalog host, zip reader,
      directory listing order, dialog answers, clock) is passed in as
      data or as functions, and every statement holds for all of them.
    - Exceptions are values: a computation that may raise returns
      [exn + A], and each [try ... except Exception] of the source is a
      match on that result. *)

From Stdlib Require Import ZArith Ascii SpecFloat.
From stdpp Require Import gmap strings list fin_maps.

Local Open Scope Z_scope.

(** ** Characters and the two string helpers *)

Definition is_digit (c : ascii) : bool :=
  match Ascii.is_nat c with Some _ => true | None => false end.

Definition digit_value (c : ascii) : Z :=
  match Ascii.is_nat c with Some d => Z.of_nat d | None => 0 end.

(** The longest run of decimal digits at the head of [s]: the greedy [\d+]. *)
Fixpoint leading_digits (s : string) : string :=
  match s with
  | String c rest => if is_digit c then String c (leading_digits rest) else ""
  | EmptyString => ""
  end.

Fixpoint strip_prefix (p s : string) : option string :=
  match p, s with
  | EmptyString, _ => Some s
  | String a p', String b s' => if decide (a = b) then strip_prefix p' s' else None
  | String _ _, EmptyString => None
  end.

(** [re.search(r"beatmapsets/(\d+)", url)]: the leftmost place where the
    literal is followed by at least one digit; group 1 is the digit run. *)
Definition match_here (s : string) : option string :=
  match strip_prefix "beatmapsets/" s with
  | Some tail =>
      match leading_digits tail with
      | EmptyString => None
      | ds => Some ds
      end
  | None => None
  end.

Fixpoint extract_beatmapset_id (url : string) : option string :=
  match match_here url with
  | Some ds => Some ds
  | None =>
      match url with
      | String _ rest => extract_beatmapset_id rest
      | EmptyString => None
      end
  end.

Definition quote_char : ascii := ascii_of_nat 34.
Definition backslash_char : ascii := ascii_of_nat 92.

(** The character class of [sanitize_filename]. *)
Definition invalid_char (c : ascii) : bool :=
  bool_decide (c ∈ [backslash_char; "/"; "*"; "?"; ":"; quote_char; "<"; ">"; "|"]%char).

Fixpoint sanitize_filename (name : string) : string :=
  match name with
  | String c rest =>
      if invalid_char c then sanitize_filename rest
      else String c (sanitize_filename rest)
  | EmptyString => ""
  end.

(** [c in s]. *)
Fixpoint contains (c : ascii) (s : string) : bool :=
  match s with
  | String a rest => bool_decide (a = c) || contains c rest
  | EmptyString => false
  end.

(** ** [int] on a header value *)

(** Python's whitespace among the first 256 code points. *)
Definition py_space (c : ascii) : bool :=
  let n := nat_of_ascii c in
  bool_decide (n ∈ [9; 10; 11; 12; 13; 28; 29; 30; 31; 32; 133; 160]%nat).

Fixpoint lstrip (s : string) : string :=
  match s with
  | String c rest => if py_space c then lstrip rest else s
  | EmptyString => ""
  end.

Definition strip (s : string) : string :=
  String.rev (lstrip (String.rev (lstrip s))).

(** Digits with single underscores between them; [prev] records that the
    previous character was a digit, [n] counts the digits read. *)
Fixpoint int_digits (s : string) (acc : Z) (prev : bool) (n : nat) : option (Z * nat) :=
  match s with
  | EmptyString => if prev then Some (acc, n) else None
  | String c rest =>
      if is_digit c then int_digits rest (10 * acc + digit_value c) true (S n)
      else if bool_decide (c = "_"%char) && prev then int_digits rest acc false n
      else None
  end.

(** CPython refuses decimal strings of more than 4300 digits. *)
Definition int_max_str_digits : nat := 4300.

(** [int(s)] for a [str] in base 10; [None] stands for [ValueError]. *)
Definition py_int (s : string) : option Z :=
  let body := strip s in
  let '(neg, ds) :=
    match body with
    | String "-" r => (true, r)
    | String "+" r => (false, r)
    | _ => (false, body)
    end in
  match int_digits ds 0 false 0 with
  | Some (v, n) =>
      if (int_max_str_digits <? n)%nat then None
      else Some (if neg : bool then - v else v)
  | None => None
  end.

(** ** Exceptions

    The exception classes the modelled code can meet.  All of them derive
    from [Exception], so an [except Exception] clause catches each one. *)
Inductive exn :=
  | TypeError | ValueError | OverflowError
  | ConnectionError | HTTPError | ChunkedEncodingError
  | BadZipFile | IsADirectoryError | NotADirectoryError | FileNotFoundError
  | OSError | OperationalError | AttributeError.

Definition result (A : Type) : Type := exn + A.

(** ** Catalog entries *)

(** A decoded JSON value as far as [float] tells values apart; the
    contents of arrays and objects play no role. *)
Inductive json :=
  | JNull
  | JBool (b : bool)
  | JInt (z : Z)
  | JFloat (f : spec_float)
  | JStr (s : string)
  | JArray
  | JObject.

Record beatmap := Beatmap {
  url : string;
  title : string;
  artist : string;
  level : option json;
  md5 : option string
}.

Global Instance spec_float_eq_dec : EqDecision spec_float.
Proof. solve_decision. Defined.
Global Instance json_eq_dec : EqDecision json.
Proof. solve_decision. Defined.
Global Instance beatmap_eq_dec : EqDecision beatmap.
Proof. solve_decision. Defined.

(** ** Python floats: binary64 as [spec_float] *)

(** [float(z)] rounds to nearest even and raises [OverflowError] when the
    integer is beyond the binary64 range. *)
Definition float_of_int (z : Z) : result spec_float :=
  match binary_normalize 53 1024 z 0 false with
  | S754_infinity _ => inl OverflowError
  | f => inr f
  end.

Definition signed_mantissa (neg : bool) (m : positive) : Z :=
  if neg then Z.neg m else Z.pos m.

(** [z <= f] and [f <= z] between an [int] and a [float]: Python compares
    the two exactly; every comparison with a NaN is false. *)
Definition int_le_float (z : Z) (f : spec_float) : bool :=
  match f with
  | S754_nan => false
  | S754_infinity neg => negb neg
  | S754_zero _ => z <=? 0
  | S754_finite neg m e =>
      if 0 <=? e then z <=? signed_mantissa neg m * 2 ^ e
      else z * 2 ^ (- e) <=? signed_mantissa neg m
  end.

Definition float_le_int (f : spec_float) (z : Z) : bool :=
  match f with
  | S754_nan => false
  | S754_infinity neg => neg
  | S754_zero _ => 0 <=? z
  | S754_finite neg m e =>
      if 0 <=? e then signed_mantissa neg m * 2 ^ e <=? z
      else signed_mantissa neg m <=? z * 2 ^ (- e)
  end.

Definition is_finite (f : spec_float) : bool :=
  match f with
  | S754_zero _ | S754_finite _ _ _ => true
  | _ => false
  end.

(** A reading of [float] on plain digit strings, to run the definitions
    below on concrete catalogs: ["7"] is [7.0]; anything else is refused. *)
Definition float_of_digits (s : string) : option spec_float :=
  match int_digits s 0 false 0 with
  | Some (v, _) =>
      match float_of_int v with inr f => Some f | inl _ => None end
  | None => None
  end.

(** ** Catalog normalisation: the two loops and the comprehension of [task] *)

Section Normalizer.

(** [float] on a [str], correctly rounded by the interpreter; [None]
    stands for [ValueError]. *)
Variable float_of_str : string → option spec_float.

(** [float(lvl_str)] where [lvl_str = m.get("level")]. *)
Definition py_float (v : option json) : result spec_float :=
  match v with
  | Some (JFloat f) => inr f
  | Some (JInt z) => float_of_int z
  | Some (JBool b) => float_of_int (if b then 1 else 0)
  | Some (JStr s) =>
      match float_of_str s with Some f => inr f | None => inl ValueError end
  | Some JNull | Some JArray | Some JObject | None => inl TypeError
  end.

(** [min_i <= lvl <= max_i]. *)
Definition in_range (min_i max_i : Z) (lvl : spec_float) : bool :=
  int_le_float min_i lvl && float_le_int lvl max_i.

(** The loop [for m in maps] of one table, appending to [combined_maps]. *)
Fixpoint level_loop (maps : list beatmap) (min_i max_i : Z)
    (combined_maps : list beatmap) : list beatmap :=
  match maps with
  | [] => combined_maps
  | m :: rest =>
      match py_float (level m) with
      | inl _ => level_loop rest min_i max_i combined_maps
      | inr lvl =>
          if in_range min_i max_i lvl
          then level_loop rest min_i max_i (combined_maps ++ [m])
          else level_loop rest min_i max_i combined_maps
      end
  end.

(** The loop [for m in combined_maps] with its two accumulators. *)
Fixpoint dedup_loop (combined_maps : list beatmap) (seen_md5 : gset string)
    (unique_maps : list beatmap) : list beatmap :=
  match combined_maps with
  | [] => unique_maps
  | m :: rest =>
      match md5 m with
      | None => dedup_loop rest seen_md5 unique_maps
      | Some md =>
          if bool_decide (md = "") || bool_decide (md ∈ seen_md5)
          then dedup_loop rest seen_md5 unique_maps
          else dedup_loop rest ({[md]} ∪ seen_md5) (unique_maps ++ [m])
      end
  end.

Definition unique_of (combined_maps : list beatmap) : list beatmap :=
  dedup_loop combined_maps ∅ [].

(** [[m for m in unique_maps if m.get("md5") not in existing_md5]]. *)
Definition missing_of (unique_maps : list beatmap)
    (existing_md5 : gset (option string)) : list beatmap :=
  filter (λ m, md5 m ∉ existing_md5) unique_maps.

(** One table, one range: filter, then deduplicate. *)
Definition normalize (maps : list beatmap) (min_i max_i : Z) : list beatmap :=
  unique_of (level_loop maps min_i max_i []).

End Normalizer.

(** ** The download directory and the download service *)

Abbreviation bytes := (list Byte.byte).

Inductive entry :=
  | File (data : bytes)
  | Folder (members : gmap string bytes).

(** The answer to one streamed GET.  [body] lists the chunks that
    [iter_content] yields; with [stream_error] the iterator raises once
    they are consumed. *)
Record response := Response {
  status_ok : bool;
  content_length : option string;
  body : list bytes;
  stream_error : bool
}.

(** [NoReply]: [requests.get] itself raised (refused, timed out). *)
Inductive reply :=
  | NoReply
  | Reply (r : response).

(** The per-item result the specification calls DownloadOutcome; the
    source does not return it, it is the branch the item took. *)
Inductive outcome :=
  | Fetched
  | SkippedExisting
  | SkippedNoAssetId
  | SkippedUndersized
  | SkippedError.

Definition NERINYAN_BASE : string := "https://api.nerinyan.moe/d/".

Definition target_filename (m : beatmap) (beatmapset_id : string) : string :=
  sanitize_filename (title m) +:+ " - " +:+ sanitize_filename (artist m)
    +:+ " [" +:+ beatmapset_id +:+ "].osz".

(** [int(r.headers.get('content-length', 0) or 0)]. *)
Definition total_length_of (r : response) : result Z :=
  match content_length r with
  | None => inr 0
  | Some EmptyString => inr 0
  | Some s => match py_int s with Some n => inr n | None => inl ValueError end
  end.

(** What [f.write] has put in the file once the chunks are consumed:
    empty chunks are passed over. *)
Definition written (chunks : list bytes) : bytes :=
  foldl (λ acc chunk, match chunk with [] => acc | _ => acc ++ chunk end) [] chunks.

(** How control leaves the [try] body when nothing is raised. *)
Inductive exit := Continued | FellThrough.

Definition nul_char : ascii := ascii_of_nat 0.

(** [open(filepath, "wb")].  The interpreter raises [ValueError] on a
    name with a NUL character before it asks the file system;
    [can_open] is the answer of the file system for any other name, and
    a refusal is an [OSError]. *)
Definition open_result (can_open : string → bool) (filename : string)
    : result unit :=
  if contains nul_char filename then inl ValueError
  else if can_open filename then inr tt
  else inl OSError.

(** The body of the [try] statement for one map; the directory comes back
    as the body left it, also when it raises. *)
Definition try_body (can_open : string → bool) (rep : reply) (filename : string)
    (files : gmap string entry) : result exit * gmap string entry :=
  match rep with
  | NoReply => (inl ConnectionError, files)
  | Reply r =>
      if negb (status_ok r) then (inl HTTPError, files)
      else
        match total_length_of r with
        | inl e => (inl e, files)
        | inr total_length =>
            if negb (total_length =? 0) && (total_length <? 200000)
            then (inr Continued, files)
            else
              match open_result can_open filename with
              | inl e => (inl e, files)
              | inr _ =>
                  let files' := <[filename := File (written (body r))]> files in
                  if stream_error r then (inl ChunkedEncodingError, files')
                  else (inr FellThrough, files')
              end
        end
  end.

Section Engine.

(** [S] is whatever the progress callback updates. *)
Context {S : Type}.

(** Whether the file system lets a file of that name be created in the
    download directory. *)
Variable can_open : string → bool.

(** The download service: its answer may depend on the requests made
    so far. *)
Variable service : list string → string → reply.
Variable progress_callback : nat → nat → spec_float → S → S.

Record run_state := RunState {
  files : gmap string entry;
  requests : list string;
  done : nat;
  observer : S
}.

(** [done += 1; progress_callback(done, total, start_time)]. *)
Definition advance (total : nat) (start_time : spec_float) (st : run_state)
    : run_state :=
  let done' := Datatypes.S (done st) in
  RunState (files st) (requests st) done'
    (progress_callback done' total start_time (observer st)).

(** One iteration of [for m in missing_maps]. *)
Definition download_one (total : nat) (start_time : spec_float) (m : beatmap)
    (st : run_state) : run_state * outcome :=
  match extract_beatmapset_id (url m) with
  | None => (advance total start_time st, SkippedNoAssetId)
  | Some beatmapset_id =>
      let download_url := NERINYAN_BASE +:+ beatmapset_id in
      let filename := target_filename m beatmapset_id in
      match files st !! filename with
      | Some _ => (advance total start_time st, SkippedExisting)
      | None =>
          let rep := service (requests st) download_url in
          let '(res, files') := try_body can_open rep filename (files st) in
          let st' :=
            RunState files' (requests st ++ [download_url]) (done st) (observer st) in
          match res with
          | inr Continued => (advance total start_time st', SkippedUndersized)
          | inr FellThrough => (advance total start_time st', Fetched)
          | inl _ => (advance total start_time st', SkippedError)
          end
      end
  end.

Fixpoint download_loop (total : nat) (start_time : spec_float)
    (missing_maps : list beatmap) (st : run_state) : run_state * list outcome :=
  match missing_maps with
  | [] => (st, [])
  | m :: rest =>
      let '(st1, o) := download_one total start_time m st in
      let '(st2, os) := download_loop total start_time rest st1 in
      (st2, o :: os)
  end.

(** [download_root] is [None] while the directory does not exist;
    [os.makedirs(download_root, exist_ok=True)] then creates it empty.
    [now] is the reading of [time.time()]. *)
Definition download_missing_maps (missing_maps : list beatmap)
    (download_root : option (gmap string entry)) (earlier : list string)
    (now : spec_float) (obs : S) : run_state * list outcome :=
  let total := length missing_maps in
  download_loop total now missing_maps
    (RunState (default ∅ download_root) earlier 0%nat obs).

End Engine.

Arguments run_state : clear implicits.

(** ** Archive extraction *)

(** [str.lower] on one character. *)
Definition lower_char (c : ascii) : ascii :=
  let n := nat_of_ascii c in
  if ((65 <=? n) && (n <=? 90))%nat
     || ((192 <=? n) && (n <=? 222) && negb (n =? 215))%nat
  then ascii_of_nat (n + 32) else c.

Fixpoint lower (s : string) : string :=
  match s with
  | String c rest => String (lower_char c) (lower rest)
  | EmptyString => ""
  end.

Definition endswith (s suffix : string) : bool :=
  match strip_prefix (String.rev suffix) (String.rev s) with
  | Some _ => true
  | None => false
  end.

(** [f.lower().endswith(".osz")]. *)
Definition is_osz (f : string) : bool := endswith (lower f) ".osz".

(** Reading a reversed name up to its first dot: what precedes the last
    dot of the name, still reversed. *)
Fixpoint before_last_dot (reversed : string) : option string :=
  match reversed with
  | String c rest => if bool_decide (c = "."%char) then Some rest else before_last_dot rest
  | EmptyString => None
  end.

Fixpoint all_dots (s : string) : bool :=
  match s with
  | String c rest => bool_decide (c = "."%char) && all_dots rest
  | EmptyString => true
  end.

(** [os.path.splitext(name)[0]] for a name without separators: cut at the
    last dot, unless only dots precede it. *)
Definition splitext_stem (name : string) : string :=
  match before_last_dot (String.rev name) with
  | Some reversed_stem =>
      if all_dots reversed_stem then name else String.rev reversed_stem
  | None => name
  end.

Inductive fs_event :=
  | Extract (name : string)
  | Remove (name : string).

Section Extractor.

(** The zip reader.  [None]: the file is not a zip archive.
    [Some (members, ok)]: [members] are the files [extractall] writes,
    in order; with [ok = false] it raises after writing them. *)
Variable read_zip : bytes → option (list (string * bytes) * bool).

(** [os.listdir]: the names of a directory in an order of its own. *)
Variable listdir : gmap string entry → list string.

Definition unpack (members : list (string * bytes)) (old : gmap string bytes)
    : gmap string bytes :=
  foldl (λ acc kv, <[kv.1 := kv.2]> acc) old members.

(** [with zipfile.ZipFile(osz_path, "r") as zip_ref:
       zip_ref.extractall(extract_folder)]. *)
Definition extract_one (osz_file : string) (dir : gmap string entry)
    : result unit * gmap string entry :=
  let extract_folder := splitext_stem osz_file in
  match dir !! osz_file with
  | None => (inl FileNotFoundError, dir)
  | Some (Folder _) => (inl IsADirectoryError, dir)
  | Some (File data) =>
      match read_zip data with
      | None => (inl BadZipFile, dir)
      | Some (members, ok) =>
          let status := if ok : bool then inr tt else inl BadZipFile in
          match members, dir !! extract_folder with
          | [], _ => (status, dir)
          | _ :: _, Some (File _) => (inl NotADirectoryError, dir)
          | _ :: _, Some (Folder old) =>
              (status, <[extract_folder := Folder (unpack members old)]> dir)
          | _ :: _, None =>
              (status, <[extract_folder := Folder (unpack members ∅)]> dir)
          end
      end
  end.

(** The first loop: every failure is passed over. *)
Fixpoint extract_pass (osz_files : list string) (dir : gmap string entry)
    (log : list fs_event) : gmap string entry * list fs_event :=
  match osz_files with
  | [] => (dir, log)
  | osz_file :: rest =>
      let '(_, dir') := extract_one osz_file dir in
      extract_pass rest dir' (log ++ [Extract osz_file])
  end.

(** [os.remove]: unlinks a file, raises on a directory or a missing name. *)
Definition os_remove (name : string) (dir : gmap string entry)
    : result unit * gmap string entry :=
  match dir !! name with
  | Some (File _) => (inr tt, delete name dir)
  | Some (Folder _) => (inl IsADirectoryError, dir)
  | None => (inl FileNotFoundError, dir)
  end.

(** The second loop. *)
Fixpoint delete_pass (osz_files : list string) (dir : gmap string entry)
    (log : list fs_event) : gmap string entry * list fs_event :=
  match osz_files with
  | [] => (dir, log)
  | osz_file :: rest =>
      let '(_, dir') := os_remove osz_file dir in
      delete_pass rest dir' (log ++ [Remove osz_file])
  end.

(** [download_root] is [None] when [os.path.isdir] is false. *)
Definition extract_osz_files (download_root : option (gmap string entry))
    (delete_after : bool) : option (gmap string entry) * list fs_event :=
  match download_root with
  | None => (None, [])
  | Some dir =>
      let osz_files := filter (λ f, is_osz f = true) (listdir dir) in
      let '(dir1, log1) := extract_pass osz_files dir [] in
      if delete_after then
        let '(dir2, log2) := delete_pass osz_files dir1 log1 in
        (Some dir2, log2)
      else (Some dir1, log1)
  end.

End Extractor.

(** ** The background task of [start_download] *)

Definition SONGDATA_DB : string := "songdata.db".

Definition JSON_URLS (table : string) : option string :=
  if decide (table = "7K + 8K")
  then Some "https://air-afother.github.io/osu-table/osu_mania_7k_8k_final.json"
  else if decide (table = "4K")
  then Some "https://air-afother.github.io/osu-table/osu_mania_4k_final.json"
  else None.

(** What the task does to the widgets and dialogs, in order. *)
Inductive ui_event :=
  | Button (enabled : bool)
  | ProgressReset
  | ProgressBar (done total : nat)
  | Status (text : string)
  | StatusEta (done total : nat) (start_time : spec_float)
  | Count (done total : nat)
  | ErrorBox (about : string)
  | InfoBox (text : string)
  | Question (title : string) (answer : bool).

(** [get_existing_md5] where it returns: [db] is [None] when the database
    file is absent, else the [md5] column of table [song], a NULL being
    [None].  The file on which the query raises is in [query_song_db]. *)
Definition get_existing_md5 (db : option (list (option string)))
    : gset (option string) * list ui_event :=
  match db with
  | None => (∅, [ErrorBox SONGDATA_DB])
  | Some rows => (list_to_set rows, [])
  end.

(** The closure [progress_callback] of [task]. *)
Definition task_progress (done total : nat) (start_time : spec_float)
    (ui : list ui_event) : list ui_event :=
  ui ++ [ProgressBar done total; StatusEta done total start_time; Count done total].

Record task_result := TaskResult {
  ui : list ui_event;
  catalog_requests : list string;
  download_requests : list string;
  fs_log : list fs_event;
  output_dir : option (gmap string entry)
}.

Section Task.

Variable can_open : string → bool.
Variable float_of_str : string → option spec_float.
(** [get_all_maps]: the decoded catalog, or the exception it raised. *)
Variable catalog : string → result (list beatmap).
Variable service : list string → string → reply.
Variable read_zip : bytes → option (list (string * bytes) * bool).
Variable listdir : gmap string entry → list string.
(** The user's answer to [messagebox.askyesno], by dialog title. *)
Variable ask : string → bool.
Variable now : spec_float.

(** The loop [for table in selected_tables]: [inl table] when the
    catalog of [table] could not be loaded. *)
Fixpoint collect (selected_tables : list string)
    (level_ranges_int : gmap string (Z * Z)) (combined_maps : list beatmap)
    (fetched : list string) : (string + list beatmap) * list string :=
  match selected_tables with
  | [] => (inr combined_maps, fetched)
  | table :: rest =>
      match JSON_URLS table with
      | None => collect rest level_ranges_int combined_maps fetched
      | Some url =>
          match catalog url with
          | inl _ => (inl table, fetched ++ [url])
          | inr maps =>
              let '(min_i, max_i) := default (0, 20) (level_ranges_int !! table) in
              collect rest level_ranges_int
                (level_loop float_of_str maps min_i max_i combined_maps)
                (fetched ++ [url])
          end
      end
  end.

(** [task] on the runs where no exception leaves it; [run_thread] below
    has the others. *)
Definition task (selected_tables : list string)
    (level_ranges_int : gmap string (Z * Z)) (auto_extract : bool)
    (output_path : option (gmap string entry))
    (db : option (list (option string))) : task_result :=
  let ui0 := [Button false; ProgressReset; Status "Preparing..."; Count 0 0] in
  let '(existing_md5, ui_db) := get_existing_md5 db in
  let ui1 := ui0 ++ ui_db in
  if decide (existing_md5 = ∅)
  then TaskResult (ui1 ++ [Button true]) [] [] [] output_path
  else
    match collect selected_tables level_ranges_int [] [] with
    | (inl table, fetched) =>
        TaskResult (ui1 ++ [ErrorBox table; Button true]) fetched [] [] output_path
    | (inr combined_maps, fetched) =>
        let unique_maps := unique_of combined_maps in
        let missing_maps := missing_of unique_maps existing_md5 in
        match missing_maps with
        | [] =>
            TaskResult
              (ui1 ++ [InfoBox "All maps in the selected range are already present.";
                       Button true; Status "Idle"])
              fetched [] [] output_path
        | _ :: _ =>
            let ok := ask "Confirm download" in
            let ui2 := ui1 ++ [Question "Confirm download" ok] in
            if negb ok
            then TaskResult (ui2 ++ [Button true; Status "Cancelled"])
                   fetched [] [] output_path
            else
              let '(st, _) :=
                download_missing_maps can_open service task_progress missing_maps
                  output_path [] now ui2 in
              let ui3 := observer st in
              if auto_extract then
                let '(dir, log) :=
                  extract_osz_files read_zip listdir (Some (files st)) true in
                TaskResult
                  (ui3 ++ [Status "Extracting...";
                           InfoBox "All downloads extracted and .osz files deleted.";
                           Button true; Status "Idle"])
                  fetched (requests st) log dir
              else
                let ext := ask "Extract now?" in
                let ui4 := ui3 ++ [Status "Download complete.";
                                   Question "Extract now?" ext] in
                if ext then
                  let '(dir, log) :=
                    extract_osz_files read_zip listdir (Some (files st)) false in
                  TaskResult
                    (ui4 ++ [InfoBox "Extraction complete."; Button true; Status "Idle"])
                    fetched (requests st) log dir
                else
                  TaskResult (ui4 ++ [Button true; Status "Idle"])
                    fetched (requests st) [] (Some (files st))
        end
    end.

End Task.

(** ** The thread that runs [task]

    [start_download] runs [task] in a thread of its own, and neither
    [task] nor [start_download] has a handler around the statements
    that lie outside the two [try] blocks: an exception raised there
    ends the thread on the spot.  [task] above is the thread on the
    runs where this does not happen.  [run_thread] is the same code
    with three such exits written out: the query of the database in
    [get_existing_md5] (l.145), [m.get] on an element of a catalog
    that is not an object (l.166), and [os.makedirs] at the head of
    [download_missing_maps] (l.65, called at l.214). *)

(** [songdata.db] as the thread finds it: no such file; a file on which
    [sqlite3.connect] or [SELECT md5 FROM song] raises [e] (not a
    database, no table [song]); or the rows of the column. *)
Inductive song_db :=
  | DbAbsent
  | DbUnreadable (e : exn)
  | DbRows (rows : list (option string)).

(** How the thread ends: [task] returns, or an exception leaves it. *)
Inductive thread_end :=
  | Returned
  | Died (e : exn).

(** [get_existing_md5()] on any of the three. *)
Definition query_song_db (db : song_db)
    : result (gset (option string) * list ui_event) :=
  match db with
  | DbAbsent => inr (get_existing_md5 None)
  | DbUnreadable e => inl e
  | DbRows rows => inr (get_existing_md5 (Some rows))
  end.

(** What the loop over the selected tables comes to. *)
Inductive collected :=
  | LoadFailed (table : string)
  | Raised (e : exn)
  | Collected (combined_maps : list beatmap).

Section Thread.

Variable can_open : string → bool.
Variable float_of_str : string → option spec_float.
(** [get_all_maps] once more, the decoded list now with the elements
    that are not objects: [None] stands for such an element. *)
Variable catalog : string → result (list (option beatmap)).
Variable service : list string → string → reply.
Variable read_zip : bytes → option (list (string * bytes) * bool).
Variable listdir : gmap string entry → list string.
Variable ask : string → bool.
Variable now : spec_float.

(** The loop [for m in maps] of one table on such a list: [m.get]
    raises on the first element that is not an object. *)
Fixpoint level_loop_raw (maps : list (option beatmap)) (min_i max_i : Z)
    (combined_maps : list beatmap) : result (list beatmap) :=
  match maps with
  | [] => inr combined_maps
  | None :: _ => inl AttributeError
  | Some m :: rest =>
      match py_float float_of_str (level m) with
      | inl _ => level_loop_raw rest min_i max_i combined_maps
      | inr lvl =>
          if in_range min_i max_i lvl
          then level_loop_raw rest min_i max_i (combined_maps ++ [m])
          else level_loop_raw rest min_i max_i combined_maps
      end
  end.

(** The loop [for table in selected_tables]: a catalog that cannot be
    loaded is handled (l.158), an element that is not an object is
    not. *)
Fixpoint collect_raw (selected_tables : list string)
    (level_ranges_int : gmap string (Z * Z)) (combined_maps : list beatmap)
    (fetched : list string) : collected * list string :=
  match selected_tables with
  | [] => (Collected combined_maps, fetched)
  | table :: rest =>
      match JSON_URLS table with
      | None => collect_raw rest level_ranges_int combined_maps fetched
      | Some url =>
          match catalog url with
          | inl _ => (LoadFailed table, fetched ++ [url])
          | inr maps =>
              let '(min_i, max_i) := default (0, 20) (level_ranges_int !! table) in
              match level_loop_raw maps min_i max_i combined_maps with
              | inl e => (Raised e, fetched ++ [url])
              | inr combined_maps' =>
                  collect_raw rest level_ranges_int combined_maps'
                    (fetched ++ [url])
              end
          end
      end
  end.

(** [makedirs_error] is the exception [os.makedirs(download_root,
    exist_ok=True)] raises, [None] when it succeeds. *)
Definition run_thread (selected_tables : list string)
    (level_ranges_int : gmap string (Z * Z)) (auto_extract : bool)
    (output_path : option (gmap string entry)) (makedirs_error : option exn)
    (db : song_db) : task_result * thread_end :=
  let ui0 := [Button false; ProgressReset; Status "Preparing..."; Count 0 0] in
  match query_song_db db with
  | inl e => (TaskResult ui0 [] [] [] output_path, Died e)
  | inr (existing_md5, ui_db) =>
      let ui1 := ui0 ++ ui_db in
      if decide (existing_md5 = ∅)
      then (TaskResult (ui1 ++ [Button true]) [] [] [] output_path, Returned)
      else
        match collect_raw selected_tables level_ranges_int [] [] with
        | (LoadFailed table, fetched) =>
            (TaskResult (ui1 ++ [ErrorBox table; Button true]) fetched [] []
               output_path, Returned)
        | (Raised e, fetched) =>
            (TaskResult ui1 fetched [] [] output_path, Died e)
        | (Collected combined_maps, fetched) =>
            let unique_maps := unique_of combined_maps in
            let missing_maps := missing_of unique_maps existing_md5 in
            match missing_maps with
            | [] =>
                (TaskResult
                   (ui1 ++ [InfoBox "All maps in the selected range are already present.";
                            Button true; Status "Idle"])
                   fetched [] [] output_path, Returned)
            | _ :: _ =>
                let ok := ask "Confirm download" in
                let ui2 := ui1 ++ [Question "Confirm download" ok] in
                if negb ok
                then (TaskResult (ui2 ++ [Button true; Status "Cancelled"])
                        fetched [] [] output_path, Returned)
                else
                  match makedirs_error with
                  | Some e => (TaskResult ui2 fetched [] [] output_path, Died e)
                  | None =>
                      let '(st, _) :=
                        download_missing_maps can_open service task_progress
                          missing_maps output_path [] now ui2 in
                      let ui3 := observer st in
                      if auto_extract then
                        let '(dir, log) :=
                          extract_osz_files read_zip listdir (Some (files st)) true in
                        (TaskResult
                           (ui3 ++ [Status "Extracting...";
                                    InfoBox "All downloads extracted and .osz files deleted.";
                                    Button true; Status "Idle"])
                           fetched (requests st) log dir, Returned)
                      else
                        let ext := ask "Extract now?" in
                        let ui4 := ui3 ++ [Status "Download complete.";
                                           Question "Extract now?" ext] in
                        if ext then
                          let '(dir, log) :=
                            extract_osz_files read_zip listdir (Some (files st)) false in
                          (TaskResult
                             (ui4 ++ [InfoBox "Extraction complete."; Button true;
                                      Status "Idle"])
                             fetched (requests st) log dir, Returned)
                        else
                          (TaskResult (ui4 ++ [Button true; Status "Idle"])
                             fetched (requests st) [] (Some (files st)), Returned)
                  end
            end
        end
  end.

End Thread.

(** The database [task] is given, as the thread finds it. *)
Definition readable (db : option (list (option string))) : song_db :=
  match db with
  | None => DbAbsent
  | Some rows => DbRows rows
  end.

(** A catalog host all of whose lists hold objects only. *)
Definition objects_only (catalog : string → result (list beatmap))
    (catalog_url : string) : result (list (option beatmap)) :=
  match catalog catalog_url with
  | inl e => inl e
  | inr maps => inr (Some <$> maps)
  end.

(** ** Definitions used to state the properties *)

(** The worklist in the words of the resolver's contract: walking the
    normalised sequence in order, an entry is promoted exactly when its
    hash is absent from the inventory. *)
Inductive resolves (inventory : gset (option string))
    : list beatmap → list beatmap → Prop :=
  | resolves_nil : resolves inventory [] []
  | resolves_promote m normalized worklist :
      md5 m ∉ inventory →
      resolves inventory normalized worklist →
      resolves inventory (m :: normalized) (m :: worklist)
  | resolves_skip m normalized worklist :
      md5 m ∈ inventory →
      resolves inventory normalized worklist →
      resolves inventory (m :: normalized) worklist.

(** The test of the level loop on one entry. *)
Definition level_ok (float_of_str : string → option spec_float)
    (min_i max_i : Z) (m : beatmap) : bool :=
  match py_float float_of_str (level m) with
  | inr lvl => in_range min_i max_i lvl
  | inl _ => false
  end.

(** The hashes the deduplication loop has put in [seen_md5] after [l]. *)
Definition hashes (l : list beatmap) : gset string :=
  list_to_set (omap (λ m, match md5 m with
                          | Some md => if bool_decide (md = "") then None else Some md
                          | None => None
                          end) l).

(** A progress callback that keeps the arguments of every call. *)
Definition record_call (done total : nat) (start_time : spec_float)
    (calls : list (nat * nat)) : list (nat * nat) :=
  calls ++ [(done, total)].

(** A directory listing in the order of the map's enumeration. *)
Definition listing (dir : gmap string entry) : list string :=
  (map_to_list dir).*1.

(** A stand-in for the zip reader: data starting with the bytes "PK"
    unpacks to one member holding the rest. *)
Definition sample_zip (data : bytes) : option (list (string * bytes) * bool) :=
  match data with
  | Byte.x50 :: Byte.x4b :: rest => Some ([("map.osu", rest)], true)
  | _ => None
  end.

(** An archive of the directory: a regular file with the [.osz] ending. *)
Definition is_archive (dir : gmap string entry) (name : string) : bool :=
  match dir !! name with
  | Some (File _) => is_osz name
  | _ => false
  end.

(** ** Sample catalog entries *)

Definition song_a : beatmap :=
  Beatmap "https://osu.ppy.sh/beatmapsets/101#mania/1" "Song A" "Artist"
    (Some (JStr "7")) (Some "aa11").

Definition song_b : beatmap :=
  Beatmap "https://osu.ppy.sh/beatmapsets/102#mania/2" "Song B" "Artist"
    None (Some "bb22").

Definition song_c : beatmap :=
  Beatmap "https://osu.ppy.sh/beatmapsets/103#mania/3" "Song C" "Artist"
    (Some (JInt 15)) (Some "cc33").

(** Another difficulty with the hash of [song_a]. *)
Definition song_a_again : beatmap :=
  Beatmap "https://osu.ppy.sh/beatmapsets/104#mania/4" "Song A (copy)" "Artist"
    (Some (JInt 3)) (Some "aa11").

Definition song_without_hash : beatmap :=
  Beatmap "https://osu.ppy.sh/beatmapsets/105#mania/5" "Song E" "Artist"
    (Some (JInt 3)) (Some "").

(** ** Sample runs of the download loop *)

(** An entry whose url carries no beatmapset id. *)
Definition song_no_id : beatmap :=
  Beatmap "https://osu.ppy.sh/b/77" "Song D" "Artist" (Some (JInt 5)) (Some "dd44").

(** A file system that lets every name be created. *)
Definition accepts_all (filename : string) : bool := true.

(** An entry with a NUL character in its title. *)
Definition song_nul : beatmap :=
  Beatmap "https://osu.ppy.sh/beatmapsets/106#mania/6"
    (String "S" (String nul_char "A")) "Artist" (Some (JInt 4)) (Some "ee55").

(** A service that gives the same answer to every request. *)
Definition answer_with (r : response) : list string → string → reply :=
  λ _ _, Reply r.

Definition three_bytes : bytes := [Byte.x50; Byte.x4b; Byte.x03].

Definition fresh_run : run_state (list (nat * nat)) := RunState ∅ [] 0%nat [].

(** A directory that already holds the file of [song_b]. *)
Definition dir_with_b : gmap string entry :=
  {[ target_filename song_b "102" := File three_bytes ]}.

(** A service that fails on the archive of [song_b] and serves the rest. *)
Definition flaky_service (earlier : list string) (download_url : string) : reply :=
  if decide (download_url = NERINYAN_BASE +:+ "102") then NoReply
  else Reply (Response true None [three_bytes] false).

Definition undersized_response : response :=
  Response true (Some "150000") [three_bytes] false.

Definition full_response : response :=
  Response true (Some "250000") [replicate (500 * 500) Byte.x00] false.

(** A stream that breaks off after its first chunk. *)
Definition broken_response : response :=
  Response true (Some "250000") [three_bytes] true.

Definition plain_response : response :=
  Response true None [three_bytes] false.

(** [extends dir dir']: every regular file of [dir] is in [dir'] with the
    same content, every folder of [dir] is still a folder, and a name
    that is new in [dir'] is a folder. *)
Definition extends (dir dir' : gmap string entry) : Prop :=
  ∀ name,
    match dir !! name with
    | Some (File data) => dir' !! name = Some (File data)
    | Some (Folder _) => ∃ members, dir' !! name = Some (Folder members)
    | None => dir' !! name = None ∨ ∃ members, dir' !! name = Some (Folder members)
    end.

(** ** A sample download directory *)

Definition sample_dir : gmap string entry :=
  {[ "good.osz" := File [Byte.x50; Byte.x4b; Byte.x01];
     "bad.OSZ" := File [Byte.x00];
     "notes.txt" := File [] ]}.

(** ** A sample environment for the task *)

(** Both catalogs hold the same three entries. *)
Definition sample_catalog (catalog_url : string) : result (list beatmap) :=
  inr [song_a; song_b; song_c].

Definition always_yes (title : string) : bool := true.

(** ** Definitions used to state further properties *)

Fixpoint all_digits (s : string) : bool :=
  match s with
  | String c rest => is_digit c && all_digits rest
  | EmptyString => true
  end.

Definition starts_with_digit (s : string) : bool :=
  match s with
  | String c _ => is_digit c
  | EmptyString => false
  end.

(** The characters of a string, in order. *)
Fixpoint chars (s : string) : list ascii :=
  match s with
  | String c rest => c :: chars rest
  | EmptyString => []
  end.

(** An outcome that is reached only after a request was sent. *)
Definition issues_request (o : outcome) : bool :=
  match o with
  | SkippedNoAssetId | SkippedExisting => false
  | Fetched | SkippedUndersized | SkippedError => true
  end.

(** The url requested for [m], given the outcome it ended with. *)
Definition request_of (m : beatmap) (o : outcome) : option string :=
  if issues_request o
  then (λ id, NERINYAN_BASE +:+ id) <$> extract_beatmapset_id (url m)
  else None.

(** An outcome after which the target file is in the directory. *)
Definition leaves_file (o : outcome) : bool :=
  match o with
  | Fetched | SkippedExisting => true
  | _ => false
  end.

(** [has_members dir folder_name keys]: [dir] holds a folder of that name
    with a member for each of the keys. *)
Definition has_members (dir : gmap string entry) (folder_name : string)
    (keys : list string) : Prop :=
  ∃ folder, dir !! folder_name = Some (Folder folder)
            ∧ ∀ k, k ∈ keys → is_Some (folder !! k).

(** The bounds [task] uses for a table: the entry of [level_ranges_int],
    or [(0, 20)]. *)
Definition range_of (level_ranges_int : gmap string (Z * Z)) (table : string)
    : Z * Z :=
  default (0, 20) (level_ranges_int !! table).

(** What a selected table adds to [combined_maps] once its catalog is
    loaded: the entries of the catalog whose level is within the bounds
    of the table, in catalog order. *)
Definition table_part (float_of_str : string → option spec_float)
    (catalog : string → result (list beatmap))
    (level_ranges_int : gmap string (Z * Z)) (table : string) : list beatmap :=
  match JSON_URLS table with
  | Some catalog_url =>
      match catalog catalog_url with
      | inr maps =>
          filter (λ m, level_ok float_of_str (range_of level_ranges_int table).1
                         (range_of level_ranges_int table).2 m = true) maps
      | inl _ => []
      end
  | None => []
  end.

(** The catalog of [table], if it has one, can be loaded. *)
Definition loads (catalog : string → result (list beatmap)) (table : string) : Prop :=
  ∀ catalog_url, JSON_URLS table = Some catalog_url →
                 ∃ maps, catalog catalog_url = inr maps.

(** The states the start button is put in, in order. *)
Definition button_states (ui : list ui_event) : list bool :=
  omap (λ e, match e with Button enabled => Some enabled | _ => None end) ui.

(** The texts of the information boxes shown, in order. *)
Definition info_texts (ui : list ui_event) : list string :=
  omap (λ e, match e with InfoBox text => Some text | _ => None end) ui.

(** The widget updates of [n] calls of the task's progress callback. *)
Definition progress_events (total : nat) (start_time : spec_float) (n : nat)
    : list ui_event :=
  mjoin ((λ d, [ProgressBar d total; StatusEta d total start_time; Count d total])
           <$> seq 1 n).

(** A catalog host on which the 4K catalog cannot be loaded. *)
Definition half_catalog (catalog_url : string) : result (list beatmap) :=
  if decide (catalog_url
             = "https://air-afother.github.io/osu-table/osu_mania_4k_final.json")
  then inl ConnectionError
  else inr [song_a; song_b; song_c].

Definition always_no (title : string) : bool := false.

(** The titles of the questions asked, in order. *)
Definition question_titles (ui : list ui_event) : list string :=
  omap (λ e, match e with Question title _ => Some title | _ => None end) ui.

(** ** The window: reading the widgets *)

(** The tables of the window, in the order their rows are built. *)
Definition GUI_TABLES : list string := ["7K + 8K"; "4K"].

Definition TABLE_URLS (table : string) : option string :=
  if decide (table = "7K + 8K")
  then Some "https://air-afother.github.io/osu-table/"
  else if decide (table = "4K")
  then Some "https://air-afother.github.io/osu-table/index4k.html"
  else None.

(** [get_selected_tables_and_ranges]: [checked], [min_of] and [max_of]
    are the values of the check box and of the two spin boxes of each
    table when the start button is pressed. *)
Definition get_selected_tables_and_ranges (checked : string → bool)
    (min_of max_of : string → Z) : list string * gmap string (Z * Z) :=
  (filter (λ name, checked name = true) GUI_TABLES,
   list_to_map ((λ name, (name, (min_of name, max_of name))) <$> GUI_TABLES)).

(** ** The remaining time shown by the task's progress callback *)

(** [int(x)] for a float: the integer part, toward zero; raises on a NaN
    and on an infinity. *)
Definition py_trunc (f : spec_float) : result Z :=
  match f with
  | S754_nan => inl ValueError
  | S754_infinity _ => inl OverflowError
  | S754_zero _ => inr 0
  | S754_finite neg m e =>
      let magnitude :=
        if 0 <=? e then Z.pos m * 2 ^ e else Z.pos m / 2 ^ (- e) in
      inr (if neg then - magnitude else magnitude)
  end.

(** [mins, secs] of the closure [progress_callback]; [clock] is the
    reading of [time.time()] inside the call.  An [int] operand of a
    float operation is converted with [float] first. *)
Definition eta (done total : Z) (start_time clock : spec_float) : result (Z * Z) :=
  let elapsed := SFsub 53 1024 clock start_time in
  let remaining :=
    if 0 <? done then
      match float_of_int done with
      | inl e => inl e
      | inr float_done =>
          let avg := SFdiv 53 1024 elapsed float_done in
          match float_of_int (total - done) with
          | inl e => inl e
          | inr float_left => py_trunc (SFmul 53 1024 float_left avg)
          end
      end
    else inr ((total - done) * 0) in
  match remaining with
  | inl e => inl e
  | inr r => inr (r / 60, r mod 60)
  end.

(** Clock readings for the examples: 1000.0 and 1090.0 seconds. *)
Definition clock_1000 : spec_float := S754_finite false 8796093022208000 (-43).
Definition clock_1090 : spec_float := S754_finite false 4793870697103360 (-42).

(** ** Sample environments for the thread *)

(** A catalog whose second element is not an object. *)
Definition mixed_catalog (catalog_url : string) : result (list (option beatmap)) :=
  inr [Some song_a; None].

(** A file [songdata.db] without a table [song]. *)
Definition db_without_table : song_db := DbUnreadable OperationalError.

(** * Properties *)

(** ** The helpers on concrete strings *)

Example extract_id_1 :
  extract_beatmapset_id "https://osu.ppy.sh/beatmapsets/123456#mania/789" = Some "123456".
Proof. reflexivity. Qed.

Example extract_id_2 :
  extract_beatmapset_id "https://osu.ppy.sh/beatmapsets/x/beatmapsets/42" = Some "42".
Proof. reflexivity. Qed.

Example extract_id_3 : extract_beatmapset_id "https://osu.ppy.sh/b/99" = None.
Proof. reflexivity. Qed.

Example sanitize_1 : sanitize_filename "a/b:c*d?e<f>g|h" = "abcdefgh".
Proof. reflexivity. Qed.

Example py_int_1 : py_int " 250_000 " = Some 250000.
Proof. reflexivity. Qed.

Example py_int_2 :
  py_int "-12" = Some (-12) ∧ py_int "1__2" = None ∧ py_int "" = None ∧ py_int "12a" = None.
Proof. repeat split; reflexivity. Qed.

Example float_of_int_3 : float_of_int 3 = inr (S754_finite false 6755399441055744 (-51)).
Proof. reflexivity. Qed.

Example float_of_int_rounds :
  float_of_int (2 ^ 53 + 1) = float_of_int (2 ^ 53)
  ∧ float_of_int (2 ^ 1024) = inl OverflowError
  ∧ float_of_int 0 = inr (S754_zero false).
Proof. repeat split; reflexivity. Qed.

Example level_3_in_range :
  int_le_float 0 (S754_finite false 6755399441055744 (-51)) = true ∧
  float_le_int (S754_finite false 6755399441055744 (-51)) 3 = true ∧
  float_le_int (S754_finite false 6755399441055744 (-51)) 2 = false.
Proof. repeat split; reflexivity. Qed.

Example splitext_examples :
  splitext_stem "Song - Artist [12].osz" = "Song - Artist [12]" ∧
  splitext_stem ".osz" = ".osz" ∧ splitext_stem "a.b.OSZ" = "a.b" ∧
  is_osz "x.OsZ" = true ∧ is_osz "x.osz.tmp" = false.
Proof. repeat split; reflexivity. Qed.

(** ** Target filenames name entries of the download directory

    [os.path.join(download_root, filename)] stays directly under
    [download_root] because [filename] never holds a separator: this is
    what lets the directory be a map from names to entries. *)

Lemma contains_app c s1 s2 :
  contains c (s1 +:+ s2) = contains c s1 || contains c s2.
Proof.
  induction s1 as [|a s1 IH]; [done|].
  change (String a s1 +:+ s2) with (String a (s1 +:+ s2)).
  cbn [contains]. rewrite IH. by rewrite orb_assoc.
Qed.

Lemma sanitize_removes c name :
  invalid_char c = true → contains c (sanitize_filename name) = false.
Proof.
  intros Hc. induction name as [|a name IH]; [done|].
  cbn [sanitize_filename]. destruct (invalid_char a) eqn:Ha; [done|].
  cbn [contains]. rewrite IH, orb_false_r.
  apply bool_decide_eq_false_2. intros ->. congruence.
Qed.

Lemma leading_digits_only c s :
  contains c (leading_digits s) = true → is_digit c = true.
Proof.
  induction s as [|a s IH]; [done|]. cbn [leading_digits].
  destruct (is_digit a) eqn:Ha; [|done]. cbn [contains].
  intros [Heq%bool_decide_eq_true| Hin]%orb_true_iff; [by subst|auto].
Qed.

Lemma beatmapset_id_digits url id :
  extract_beatmapset_id url = Some id →
  id ≠ "" ∧ ∀ c, contains c id = true → is_digit c = true.
Proof.
  induction url as [|a url IH]; cbn [extract_beatmapset_id].
  - unfold match_here. by cbn.
  - destruct (match_here (String a url)) as [ds|] eqn:Hhere; [|done].
    intros [= <-]. unfold match_here in Hhere.
    destruct (strip_prefix _ _) as [tail|]; [|done].
    destruct (leading_digits tail) as [|d ds'] eqn:Hds; [done|].
    injection Hhere as <-. split; [done|].
    intros c Hc. apply (leading_digits_only c tail). by rewrite Hds.
Qed.

Lemma target_filename_flat m url id :
  extract_beatmapset_id url = Some id →
  contains "/" (target_filename m id) = false.
Proof.
  intros [_ Hdigits]%beatmapset_id_digits. unfold target_filename.
  rewrite !contains_app, !sanitize_removes by done.
  destruct (contains "/" id) eqn:Hid; [|done].
  by apply Hdigits in Hid.
Qed.

(** ** Missing-set resolution *)

Lemma missing_of_resolves inventory normalized :
  resolves inventory normalized (missing_of normalized inventory).
Proof.
  unfold missing_of. induction normalized as [|m l IH]; [constructor|].
  rewrite filter_cons. destruct (decide (md5 m ∉ inventory)) as [Hm|Hm].
  - by apply resolves_promote.
  - apply resolves_skip; [|done]. by apply dec_stable.
Qed.

Lemma resolves_functional inventory normalized w :
  resolves inventory normalized w → w = missing_of normalized inventory.
Proof.
  unfold missing_of. induction 1 as [|m l w Hm _ IH|m l w Hm _ IH].
  - done.
  - rewrite filter_cons_True by done. by f_equal.
  - rewrite filter_cons_False; [done|]. by intros Hn.
Qed.

(** C4.  The worklist computed by the comprehension of [task] is the one
    the resolver's contract describes, and the only one: it keeps exactly
    the entries whose hash is absent from the inventory, as a subsequence
    of the normalised input. *)
Theorem resolve_is_ordered_difference
    (normalized : list beatmap) (inventory : gset (option string)) :
  (∀ worklist, resolves inventory normalized worklist
               ↔ worklist = missing_of normalized inventory)
  ∧ missing_of normalized inventory `sublist_of` normalized
  ∧ (∀ m, m ∈ missing_of normalized inventory
          ↔ m ∈ normalized ∧ md5 m ∉ inventory).
Proof.
  split; [|split].
  - intros w. split; [apply resolves_functional|].
    intros ->. apply missing_of_resolves.
  - apply sublist_filter.
  - intros m. unfold missing_of. rewrite list_elem_of_filter. tauto.
Qed.

(** ** The level filter *)

Section LevelFacts.

Variable float_of_str : string → option spec_float.

Lemma level_loop_filter maps min_i max_i combined :
  level_loop float_of_str maps min_i max_i combined
  = combined ++ filter (λ m, level_ok float_of_str min_i max_i m = true) maps.
Proof.
  revert combined. induction maps as [|m rest IH]; intros combined; simpl.
  - by rewrite app_nil_r.
  - rewrite filter_cons.
    destruct (py_float float_of_str (level m)) as [e|lvl] eqn:Hpf.
    + rewrite decide_False; [apply IH|]. unfold level_ok. by rewrite Hpf.
    + destruct (in_range min_i max_i lvl) eqn:Hr.
      * rewrite decide_True; [by rewrite IH, <- app_assoc|].
        unfold level_ok. by rewrite Hpf.
      * rewrite decide_False; [apply IH|]. unfold level_ok. by rewrite Hpf, Hr.
Qed.

Lemma in_range_finite min_i max_i lvl :
  in_range min_i max_i lvl = true → is_finite lvl = true.
Proof.
  unfold in_range. destruct lvl as [s|s| |s m e]; simpl; try done.
  by destruct s.
Qed.

Lemma level_ok_inv min_i max_i m :
  level_ok float_of_str min_i max_i m = true →
  ∃ lvl, py_float float_of_str (level m) = inr lvl
         ∧ int_le_float min_i lvl = true ∧ float_le_int lvl max_i = true
         ∧ is_finite lvl = true.
Proof.
  unfold level_ok. destruct (py_float float_of_str (level m)) as [e|lvl]; [done|].
  intros Hr. exists lvl. split; [done|].
  pose proof (in_range_finite _ _ _ Hr) as Hfin.
  unfold in_range in Hr. apply andb_true_iff in Hr as [H1 H2]. done.
Qed.

End LevelFacts.

(** ** Deduplication *)

Lemma hashes_nil : hashes [] = ∅.
Proof. done. Qed.

Lemma hashes_cons m l :
  hashes (m :: l)
  = match md5 m with
    | Some md => if bool_decide (md = "") then hashes l else {[md]} ∪ hashes l
    | None => hashes l
    end.
Proof.
  unfold hashes. simpl. destruct (md5 m) as [md|]; [|done].
  by destruct (bool_decide (md = "")).
Qed.

Lemma elem_of_hashes h l :
  h ∈ hashes l ↔ h ≠ "" ∧ ∃ m, m ∈ l ∧ md5 m = Some h.
Proof.
  induction l as [|m l IH].
  - rewrite hashes_nil. split; [set_solver|]. intros [_ (m & Hm & _)]. by inversion Hm.
  - rewrite hashes_cons. destruct (md5 m) as [md|] eqn:Hmd.
    + destruct (bool_decide_reflect (md = "")) as [->|Hne].
      * rewrite IH. split.
        -- intros [? (m' & ? & ?)]. split; [done|]. exists m'. by rewrite elem_of_cons; auto.
        -- intros [? (m' & [->|?]%elem_of_cons & ?)]; [congruence|]. eauto.
      * rewrite elem_of_union, elem_of_singleton, IH. split.
        -- intros [->|[? (m' & ? & ?)]].
           ++ split; [done|]. exists m. by rewrite elem_of_cons; auto.
           ++ split; [done|]. exists m'. by rewrite elem_of_cons; auto.
        -- intros [? (m' & [->|?]%elem_of_cons & ?)]; [left; congruence|]. right. eauto.
    + rewrite IH. split.
      * intros [? (m' & ? & ?)]. split; [done|]. exists m'. by rewrite elem_of_cons; auto.
      * intros [? (m' & [->|?]%elem_of_cons & ?)]; [congruence|]. eauto.
Qed.

Lemma dedup_loop_acc l seen acc :
  dedup_loop l seen acc = acc ++ dedup_loop l seen [].
Proof.
  revert seen acc. induction l as [|m l IH]; intros seen acc; simpl.
  - by rewrite app_nil_r.
  - destruct (md5 m) as [md|]; [|apply IH].
    destruct (bool_decide (md = "") || bool_decide (md ∈ seen)); [apply IH|].
    rewrite (IH _ (acc ++ [m])), (IH _ [m]). by rewrite <- app_assoc.
Qed.

Lemma dedup_loop_elem l seen m :
  m ∈ dedup_loop l seen [] →
  m ∈ l ∧ ∃ h, md5 m = Some h ∧ h ≠ "" ∧ h ∉ seen.
Proof.
  revert seen. induction l as [|m0 l IH]; intros seen; simpl.
  - by inversion 1.
  - destruct (md5 m0) as [md|] eqn:Hmd.
    + destruct (bool_decide_reflect (md = "")) as [->|Hne]; simpl.
      { intros [? ?]%IH. split; [by apply elem_of_cons; auto|done]. }
      destruct (bool_decide_reflect (md ∈ seen)) as [Hin|Hnin].
      { intros [? ?]%IH. split; [by apply elem_of_cons; auto|done]. }
      rewrite dedup_loop_acc. intros [->%list_elem_of_singleton|Hm]%elem_of_app.
      * split; [by apply elem_of_cons; auto|]. by exists md.
      * apply IH in Hm as [? (h & ? & ? & Hh)].
        split; [by apply elem_of_cons; auto|]. exists h. set_solver.
    + intros [? ?]%IH. split; [by apply elem_of_cons; auto|done].
Qed.

Lemma dedup_loop_NoDup l seen : NoDup (md5 <$> dedup_loop l seen []).
Proof.
  revert seen. induction l as [|m0 l IH]; intros seen; simpl; [constructor|].
  destruct (md5 m0) as [md|] eqn:Hmd; [|apply IH].
  destruct (bool_decide (md = "") || bool_decide (md ∈ seen)); [apply IH|].
  rewrite dedup_loop_acc. simpl. constructor; [|apply IH].
  intros (m' & Heq & Hm')%list_elem_of_fmap.
  apply dedup_loop_elem in Hm' as [_ (h & Hh & _ & Hnin)].
  rewrite Hmd in Heq. rewrite <- Heq in Hh. set_solver.
Qed.

Lemma dedup_loop_sublist l seen : dedup_loop l seen [] `sublist_of` l.
Proof.
  revert seen. induction l as [|m0 l IH]; intros seen; simpl; [constructor|].
  destruct (md5 m0) as [md|]; [|by apply sublist_cons].
  destruct (bool_decide (md = "") || bool_decide (md ∈ seen)); [by apply sublist_cons|].
  rewrite dedup_loop_acc. simpl. by apply sublist_skip.
Qed.

Lemma dedup_loop_app l1 l2 seen :
  dedup_loop (l1 ++ l2) seen []
  = dedup_loop l1 seen [] ++ dedup_loop l2 (hashes l1 ∪ seen) [].
Proof.
  revert seen. induction l1 as [|m l1 IH]; intros seen; simpl.
  - rewrite hashes_nil. by rewrite (left_id_L ∅ (∪)).
  - rewrite hashes_cons. destruct (md5 m) as [md|]; [|apply IH].
    destruct (bool_decide_reflect (md = "")) as [->|Hne]; simpl; [apply IH|].
    destruct (bool_decide_reflect (md ∈ seen)) as [Hin|Hnin].
    + rewrite IH. do 2 f_equal. set_solver.
    + rewrite (dedup_loop_acc (l1 ++ l2)), (dedup_loop_acc l1), IH.
      rewrite <- app_assoc. do 3 f_equal. set_solver.
Qed.

Lemma NoDup_fmap_eq {A B} (f : A → B) (l : list A) x y :
  NoDup (f <$> l) → x ∈ l → y ∈ l → f x = f y → x = y.
Proof.
  induction l as [|a l IH]; simpl; [by inversion 2|].
  intros [Hnin Hnd]%NoDup_cons [->|Hx]%elem_of_cons [->|Hy]%elem_of_cons Hf.
  - done.
  - exfalso. apply Hnin. rewrite Hf. by apply list_elem_of_fmap_2.
  - exfalso. apply Hnin. rewrite <- Hf. by apply list_elem_of_fmap_2.
  - by apply IH.
Qed.

(** C6 (as stated, refuted).  An entry whose hash is the empty string is
    the first occurrence of that hash, yet the loop drops it. *)
Lemma dedup_drops_empty_hash :
  md5 song_without_hash = Some "" ∧ unique_of [song_without_hash] = [].
Proof. split; reflexivity. Qed.

(** C6 (amended).  The deduplicated output holds no two entries with the
    same hash and is a subsequence of the input; it holds only entries
    with a non-empty hash; and for each non-empty hash the entry kept is
    the first one in input order that carries it. *)
Theorem dedup_keeps_first_nonempty (combined : list beatmap) :
  NoDup (md5 <$> unique_of combined)
  ∧ unique_of combined `sublist_of` combined
  ∧ (∀ m, m ∈ unique_of combined → ∃ h, md5 m = Some h ∧ h ≠ "")
  ∧ (∀ l1 m l2 h,
       combined = l1 ++ m :: l2 →
       md5 m = Some h → h ≠ "" →
       (∀ m', m' ∈ l1 → md5 m' ≠ Some h) →
       m ∈ unique_of combined
       ∧ ∀ m', m' ∈ unique_of combined → md5 m' = Some h → m' = m).
Proof.
  unfold unique_of. split; [apply dedup_loop_NoDup|].
  split; [apply dedup_loop_sublist|]. split.
  - intros m (_ & h & ? & ? & _)%dedup_loop_elem. by exists h.
  - intros l1 m l2 h -> Hm Hne Hfirst.
    assert (m ∈ dedup_loop (l1 ++ m :: l2) ∅ []) as Hin.
    { rewrite dedup_loop_app. apply elem_of_app. right. simpl. rewrite Hm.
      rewrite bool_decide_eq_false_2 by done. simpl.
      rewrite bool_decide_eq_false_2.
      - rewrite dedup_loop_acc. by apply elem_of_cons; left.
      - rewrite elem_of_union, elem_of_hashes.
        intros [[_ (m' & Hm' & Hh)]|Hempty]; [by eapply Hfirst|set_solver]. }
    split; [done|]. intros m' Hm' Hh.
    eapply (NoDup_fmap_eq md5); [apply dedup_loop_NoDup|done..|congruence].
Qed.

Lemma dedup_keeps_first_nonempty_witness :
  song_a ∈ unique_of [song_b; song_a; song_a_again]
  ∧ ∀ m', m' ∈ unique_of [song_b; song_a; song_a_again] →
          md5 m' = Some "aa11" → m' = song_a.
Proof.
  apply (proj2 (proj2 (proj2 (dedup_keeps_first_nonempty
           [song_b; song_a; song_a_again]))) [song_b] song_a [song_a_again] "aa11").
  - reflexivity.
  - reflexivity.
  - discriminate.
  - intros m' Hm'. apply list_elem_of_singleton in Hm'. subst m'. discriminate.
Defined.

(** ** Normalisation of one catalog *)

(** C5.  Every entry of the normalised output has a level that [float]
    accepts, and that level is a finite number between the bounds,
    inclusive; an entry whose level is missing or refused by [float]
    never reaches the output, and the loop passes over it. *)
Theorem normalize_levels_in_range
    (float_of_str : string → option spec_float)
    (maps : list beatmap) (min_i max_i : Z) :
  (∀ m, m ∈ normalize float_of_str maps min_i max_i →
        ∃ lvl, py_float float_of_str (level m) = inr lvl
               ∧ int_le_float min_i lvl = true ∧ float_le_int lvl max_i = true
               ∧ is_finite lvl = true)
  ∧ (∀ m e, py_float float_of_str (level m) = inl e →
            m ∉ normalize float_of_str maps min_i max_i)
  ∧ level_loop float_of_str maps min_i max_i []
    = filter (λ m, level_ok float_of_str min_i max_i m = true) maps.
Proof.
  assert (∀ m, m ∈ normalize float_of_str maps min_i max_i →
               level_ok float_of_str min_i max_i m = true) as Hok.
  { unfold normalize, unique_of. intros m [Hm _]%dedup_loop_elem.
    rewrite level_loop_filter in Hm. simpl in Hm.
    by apply list_elem_of_filter in Hm as [? _]. }
  split; [|split].
  - intros m Hm. by apply level_ok_inv, Hok.
  - intros m e He Hm. apply Hok in Hm. unfold level_ok in Hm. by rewrite He in Hm.
  - by rewrite level_loop_filter.
Qed.

Lemma normalize_levels_in_range_witness :
  (∃ lvl, py_float float_of_digits (level song_a) = inr lvl
          ∧ int_le_float 0 lvl = true ∧ float_le_int lvl 13 = true
          ∧ is_finite lvl = true)
  ∧ song_b ∉ normalize float_of_digits [song_a; song_b; song_c] 0 13.
Proof.
  split.
  - apply (proj1 (normalize_levels_in_range float_of_digits
                    [song_a; song_b; song_c] 0 13) song_a).
    vm_compute. apply list_elem_of_here.
  - apply (proj1 (proj2 (normalize_levels_in_range float_of_digits
                    [song_a; song_b; song_c] 0 13)) song_b TypeError).
    reflexivity.
Defined.

Example normalize_sample :
  normalize float_of_digits [song_a; song_b; song_c; song_a_again] 0 13 = [song_a].
Proof. reflexivity. Qed.

(** ** The download loop *)

Section EngineFacts.

Context {S : Type}.
Variable can_open : string → bool.
Variable service : list string → string → reply.
Variable progress_callback : nat → nat → spec_float → S → S.
Variable total : nat.
Variable start_time : spec_float.

Abbreviation step := (download_one can_open service progress_callback total start_time).
Abbreviation loop := (download_loop can_open service progress_callback total start_time).
Abbreviation tick := (advance progress_callback total start_time).

Lemma try_body_files rep filename dir res dir' :
  dir !! filename = None →
  try_body can_open rep filename dir = (res, dir') →
  dir ⊆ dir'.
Proof.
  intros Hnone. unfold try_body. destruct rep as [|r]; [by intros [= _ <-]|].
  destruct (status_ok r); simpl; [|by intros [= _ <-]].
  destruct (total_length_of r) as [e|n]; [by intros [= _ <-]|].
  destruct (negb (n =? 0) && (n <? 200000)); [by intros [= _ <-]|].
  destruct (open_result can_open filename) as [e|opened]; [by intros [= _ <-]|].
  destruct (stream_error r); intros [= _ <-]; by apply insert_subseteq.
Qed.

Lemma step_shape m st :
  ∃ dir' reqs',
    (step m st).1
    = RunState dir' reqs' (Datatypes.S (done st))
        (progress_callback (Datatypes.S (done st)) total start_time (observer st))
    ∧ files st ⊆ dir'.
Proof.
  unfold download_one. destruct (extract_beatmapset_id (url m)) as [id|].
  - destruct (files st !! target_filename m id) eqn:Hf.
    + by exists (files st), (requests st).
    + destruct (try_body _ _ _ _) as [res dir'] eqn:Hb.
      exists dir', (requests st ++ [NERINYAN_BASE +:+ id]).
      split; [by destruct res as [e|[]]|]. by eapply try_body_files.
  - by exists (files st), (requests st).
Qed.

Lemma step_done m st : done (step m st).1 = Datatypes.S (done st).
Proof. destruct (step_shape m st) as (? & ? & -> & _). done. Qed.

Lemma step_observer m st :
  observer (step m st).1
  = progress_callback (Datatypes.S (done st)) total start_time (observer st).
Proof. destruct (step_shape m st) as (? & ? & -> & _). done. Qed.

Lemma step_files m st : files st ⊆ files (step m st).1.
Proof. destruct (step_shape m st) as (? & ? & -> & ?). done. Qed.

Lemma loop_cons m l st :
  loop (m :: l) st
  = ((loop l (step m st).1).1, (step m st).2 :: (loop l (step m st).1).2).
Proof.
  simpl. destruct (step m st) as [st1 o]. simpl.
  by destruct (loop l st1) as [st2 os].
Qed.

Lemma loop_app l1 l2 st :
  loop (l1 ++ l2) st
  = ((loop l2 (loop l1 st).1).1, (loop l1 st).2 ++ (loop l2 (loop l1 st).1).2).
Proof.
  revert st. induction l1 as [|m l1 IH]; intros st.
  - simpl. by destruct (loop l2 st).
  - rewrite <- app_comm_cons, !loop_cons, IH. done.
Qed.

Lemma loop_outcomes l st : length (loop l st).2 = length l.
Proof.
  revert st. induction l as [|m l IH]; intros st; [done|].
  rewrite loop_cons. simpl. by rewrite IH.
Qed.

Lemma loop_done l st : done (loop l st).1 = (done st + length l)%nat.
Proof.
  revert st. induction l as [|m l IH]; intros st.
  - simpl. lia.
  - rewrite loop_cons. simpl. rewrite IH, step_done. lia.
Qed.

Lemma loop_files l st : files st ⊆ files (loop l st).1.
Proof.
  revert st. induction l as [|m l IH]; intros st; [done|].
  rewrite loop_cons. simpl. etrans; [apply step_files|apply IH].
Qed.

(** The callback is applied once per item, with the counter one higher
    each time. *)
Lemma loop_observer l st :
  observer (loop l st).1
  = foldl (λ obs d, progress_callback d total start_time obs) (observer st)
      (seq (Datatypes.S (done st)) (length l)).
Proof.
  revert st. induction l as [|m l IH]; intros st; [done|].
  rewrite loop_cons. simpl. by rewrite IH, step_done, step_observer.
Qed.

Lemma step_existing m st id :
  extract_beatmapset_id (url m) = Some id →
  is_Some (files st !! target_filename m id) →
  step m st = (tick st, SkippedExisting).
Proof.
  intros Hid [e He]. unfold download_one. by rewrite Hid, He.
Qed.

(** A file present when the run starts is still there when its item
    comes up, so the item is skipped without a request. *)
Lemma loop_existing l1 m l2 st id :
  extract_beatmapset_id (url m) = Some id →
  is_Some (files st !! target_filename m id) →
  (loop (l1 ++ m :: l2) st).2 !! length l1 = Some SkippedExisting
  ∧ requests (loop (l1 ++ [m]) st).1 = requests (loop l1 st).1.
Proof.
  intros Hid [e He].
  assert (is_Some (files (loop l1 st).1 !! target_filename m id)) as Hlater.
  { exists e. eapply lookup_weaken; [done|apply loop_files]. }
  split.
  - rewrite loop_app, loop_cons. simpl.
    rewrite lookup_app_r by (rewrite loop_outcomes; lia).
    rewrite loop_outcomes, Nat.sub_diag. simpl.
    by rewrite (step_existing _ _ id).
  - rewrite loop_app. simpl. by rewrite (step_existing _ _ id).
Qed.

End EngineFacts.

Lemma written_app (acc : bytes) (chunks : list bytes) :
  foldl (λ acc chunk, match chunk with [] => acc | _ => acc ++ chunk end) acc chunks
  = acc ++ mjoin chunks.
Proof.
  revert acc. induction chunks as [|c chunks IH]; intros acc; simpl.
  - by rewrite app_nil_r.
  - rewrite IH. destruct c; simpl; [done|]. by rewrite <- app_assoc.
Qed.

Lemma written_mjoin (chunks : list bytes) : written chunks = mjoin chunks.
Proof. unfold written. by rewrite written_app. Qed.

(** C1 (as stated, refuted).  Four runs of one item on an empty
    directory.  A declared length of 0 is below the threshold, yet the
    item is fetched and a file appears.  A declared length of 150000 on
    an error status ends in the error branch, not the undersized one.  A
    declared length of 250000 with a three-byte body and a clean stream
    leaves a file of three bytes.  A declared length of 250000 and a
    clean stream for a title with a NUL character end in the error
    branch with nothing written: the file cannot be opened. *)
Lemma content_length_claim_fails :
  let step m r :=
    download_one accepts_all (answer_with r) record_call 1 S754_nan m fresh_run in
  let name := target_filename song_a "101" in
  ((step song_a (Response true (Some "0") [] false)).2 = Fetched
   ∧ files (step song_a (Response true (Some "0") [] false)).1 !! name
     = Some (File []))
  ∧ (step song_a (Response false (Some "150000") [] false)).2 = SkippedError
  ∧ ((step song_a (Response true (Some "250000") [three_bytes] false)).2 = Fetched
     ∧ files (step song_a (Response true (Some "250000") [three_bytes] false)).1
         !! name
       = Some (File three_bytes)
     ∧ Z.of_nat (length three_bytes) ≠ 250000)
  ∧ ((step song_nul (Response true (Some "250000") [three_bytes] false)).2
     = SkippedError
     ∧ files (step song_nul (Response true (Some "250000") [three_bytes] false)).1
       = ∅).
Proof. vm_compute. repeat split; discriminate. Qed.

Section EngineClaims.

Context {S : Type}.
Variable can_open : string → bool.
Variable service : list string → string → reply.
Variable progress_callback : nat → nat → spec_float → S → S.
Variable total : nat.
Variable start_time : spec_float.

Abbreviation step := (download_one can_open service progress_callback total start_time).
Abbreviation loop := (download_loop can_open service progress_callback total start_time).
Abbreviation tick := (advance progress_callback total start_time).

(** C1 (amended).  For a work item whose request is answered with a
    success status and a content length that [int] reads as [n]: when [n]
    is not zero and below 200000 the outcome is SkippedUndersized and
    the directory is left as it was; when [n] is at least 200000, the
    output file can be opened and the stream ends cleanly, the outcome
    is Fetched and the target file holds exactly the streamed body. *)
Theorem content_length_guard m st id r s n :
  extract_beatmapset_id (url m) = Some id →
  files st !! target_filename m id = None →
  service (requests st) (NERINYAN_BASE +:+ id) = Reply r →
  status_ok r = true →
  content_length r = Some s →
  py_int s = Some n →
  (n ≠ 0 → n < 200000 →
   (step m st).2 = SkippedUndersized ∧ files (step m st).1 = files st)
  ∧ (200000 ≤ n →
     open_result can_open (target_filename m id) = inr tt →
     stream_error r = false →
     (step m st).2 = Fetched
     ∧ files (step m st).1
       = <[target_filename m id := File (mjoin (body r))]> (files st)).
Proof.
  intros Hid Hnone Hrep Hok Hlen Hint.
  assert (total_length_of r = inr n) as Htl.
  { unfold total_length_of. rewrite Hlen. destruct s; [done|]. by rewrite Hint. }
  unfold download_one. rewrite Hid, Hnone, Hrep. unfold try_body.
  rewrite Hok, Htl. simpl. split.
  - intros Hnz Hlt.
    assert (negb (n =? 0) && (n <? 200000) = true) as ->; [|done].
    apply andb_true_iff. split; [apply negb_true_iff; lia|lia].
  - intros Hrange Hopen Hstream.
    assert (negb (n =? 0) && (n <? 200000) = false) as ->.
    { apply andb_false_iff. right. lia. }
    rewrite Hopen, Hstream, written_mjoin. done.
Qed.

(** C3.  Whatever is raised in the [try] body of one item (the request
    failing, an error status, an unreadable length header, the stream
    breaking off) is caught: the item ends as SkippedError, progress
    advances, and the loop goes on through all the items after it; the
    run returns one outcome per item. *)
Theorem transport_error_absorbed l1 m l2 st id e dir' :
  let st1 := (loop l1 st).1 in
  let download_url := NERINYAN_BASE +:+ id in
  let filename := target_filename m id in
  let st1' := tick (RunState dir' (requests st1 ++ [download_url])
                      (done st1) (observer st1)) in
  extract_beatmapset_id (url m) = Some id →
  files st1 !! filename = None →
  try_body can_open (service (requests st1) download_url) filename (files st1)
  = (inl e, dir') →
  loop (l1 ++ m :: l2) st
  = ((loop l2 st1').1, (loop l1 st).2 ++ SkippedError :: (loop l2 st1').2)
  ∧ length (loop (l1 ++ m :: l2) st).2 = length (l1 ++ m :: l2)
  ∧ done (loop (l1 ++ m :: l2) st).1 = (done st + length (l1 ++ m :: l2))%nat.
Proof.
  intros st1 download_url filename st1' Hid Hnone Hbody.
  split; [|split; [apply loop_outcomes|apply loop_done]].
  rewrite loop_app, loop_cons.
  assert (step m (loop l1 st).1 = (st1', SkippedError)) as ->; [|done].
  unfold download_one. fold st1. rewrite Hid. fold filename. rewrite Hnone.
  fold download_url. by rewrite Hbody.
Qed.

(** C7.  A work item whose target file is in the directory when the run
    starts ends as SkippedExisting, wherever it stands in the worklist,
    and no request is issued for it: the request log is the same before
    and after the item.  The step itself changes neither the directory
    nor the log. *)
Theorem existing_file_skipped l1 m l2 st id :
  extract_beatmapset_id (url m) = Some id →
  is_Some (files st !! target_filename m id) →
  step m st = (tick st, SkippedExisting)
  ∧ requests (tick st) = requests st
  ∧ files (tick st) = files st
  ∧ (loop (l1 ++ m :: l2) st).2 !! length l1 = Some SkippedExisting
  ∧ requests (loop (l1 ++ [m]) st).1 = requests (loop l1 st).1.
Proof.
  intros Hid Hex. split; [by apply (step_existing _ _ _ _ _ _ _ id)|].
  split; [done|]. split; [done|]. by apply loop_existing with id.
Qed.

End EngineClaims.

Lemma content_length_guard_witness :
  ((download_one accepts_all (answer_with undersized_response) record_call 1 S754_nan
      song_a fresh_run).2 = SkippedUndersized
   ∧ files (download_one accepts_all (answer_with undersized_response) record_call 1 S754_nan
              song_a fresh_run).1 = files fresh_run)
  ∧ ((download_one accepts_all (answer_with full_response) record_call 1 S754_nan
        song_a fresh_run).2 = Fetched
     ∧ files (download_one accepts_all (answer_with full_response) record_call 1 S754_nan
                song_a fresh_run).1
       = <[target_filename song_a "101" := File (mjoin (body full_response))]>
           (files fresh_run)).
Proof.
  split.
  - refine (proj1 (content_length_guard accepts_all (answer_with undersized_response)
              record_call 1 S754_nan song_a fresh_run "101" undersized_response
              "150000" 150000 _ _ _ _ _ _) _ _);
      first [reflexivity | lia].
  - refine (proj2 (content_length_guard accepts_all (answer_with full_response)
              record_call 1 S754_nan song_a fresh_run "101" full_response
              "250000" 250000 _ _ _ _ _ _) _ _ _);
      first [reflexivity | lia].
Defined.

Lemma transport_error_absorbed_witness :
  (download_loop accepts_all flaky_service record_call 3 S754_nan
     ([song_a] ++ song_b :: [song_c]) fresh_run).2
  = [Fetched; SkippedError; Fetched].
Proof.
  pose proof (transport_error_absorbed accepts_all flaky_service record_call 3 S754_nan
                [song_a] song_b [song_c] fresh_run "102" ConnectionError
                (files (download_loop accepts_all flaky_service record_call 3 S754_nan
                          [song_a] fresh_run).1)
                eq_refl eq_refl eq_refl) as [Hrun _].
  rewrite Hrun. reflexivity.
Defined.

Lemma existing_file_skipped_witness :
  (download_loop accepts_all (answer_with plain_response) record_call 2 S754_nan
     ([song_a] ++ song_b :: []) (RunState dir_with_b [] 0%nat [])).2 !! length [song_a]
  = Some SkippedExisting
  ∧ requests (download_loop accepts_all (answer_with plain_response) record_call 2 S754_nan
                ([song_a] ++ [song_b]) (RunState dir_with_b [] 0%nat [])).1
    = requests (download_loop accepts_all (answer_with plain_response) record_call 2 S754_nan
                  [song_a] (RunState dir_with_b [] 0%nat [])).1.
Proof.
  refine (proj2 (proj2 (proj2 (existing_file_skipped accepts_all (answer_with plain_response)
            record_call 2 S754_nan [song_a] song_b [] (RunState dir_with_b [] 0%nat [])
            "102" _ _)))).
  - reflexivity.
  - exists (File three_bytes). reflexivity.
Defined.

(** ** Progress reporting *)

Lemma record_calls_fold (total : nat) (start_time : spec_float)
    (calls : list (nat * nat)) (ds : list nat) :
  foldl (λ obs d, record_call d total start_time obs) calls ds
  = calls ++ ((λ d, (d, total)) <$> ds).
Proof.
  revert calls. induction ds as [|d ds IH]; intros calls; simpl.
  - by rewrite app_nil_r.
  - rewrite IH. unfold record_call. by rewrite <- app_assoc.
Qed.

Lemma no_call_reaches (total k a n : nat) :
  (a + n ≤ k)%nat →
  filter (λ c : nat * nat, c.1 = k) ((λ d, (d, total)) <$> seq a n) = [].
Proof.
  revert a. induction n as [|n IH]; intros a Hle; [done|].
  simpl. rewrite filter_cons_False by (simpl; lia). apply IH. lia.
Qed.

(** C2.  With a callback that records its arguments, a run over a
    worklist of length [total] leaves the calls (1, total), (2, total),
    ..., (total, total), in this order: one call per work item, whatever
    the service answered and whatever the directory held.  The run
    yields one outcome per item and ends with the counter at [total];
    for a worklist that is not empty the call with [completed = total]
    is the last one and there is no other. *)
Theorem progress_once_per_item
    (can_open : string → bool) (service : list string → string → reply)
    (missing_maps : list beatmap)
    (download_root : option (gmap string entry)) (earlier : list string)
    (now : spec_float) :
  let run := download_missing_maps can_open service record_call missing_maps
               download_root earlier now [] in
  let total := length missing_maps in
  observer run.1 = (λ d, (d, total)) <$> seq 1 total
  ∧ length run.2 = total
  ∧ done run.1 = total
  ∧ ((0 < total)%nat →
     last (observer run.1) = Some (total, total)
     ∧ length (filter (λ c : nat * nat, c.1 = total) (observer run.1)) = 1%nat).
Proof.
  intros run total.
  assert (observer run.1 = (λ d, (d, total)) <$> seq 1 total) as Hobs.
  { unfold run, download_missing_maps. rewrite loop_observer. simpl.
    by rewrite record_calls_fold. }
  split; [done|]. split; [apply loop_outcomes|].
  split; [unfold run, download_missing_maps; by rewrite loop_done|].
  intros Hpos. rewrite Hobs. destruct total as [|n]; [lia|].
  rewrite seq_S, fmap_app. simpl. split; [by rewrite last_snoc|].
  rewrite filter_app, no_call_reaches by lia.
  by rewrite filter_cons_True by done.
Qed.

Lemma progress_once_per_item_witness :
  let run := download_missing_maps accepts_all (answer_with plain_response) record_call
               [song_no_id; song_b; song_a] (Some dir_with_b) [] S754_nan [] in
  run.2 = [SkippedNoAssetId; SkippedExisting; Fetched]
  ∧ observer run.1 = [(1, 3); (2, 3); (3, 3)]%nat
  ∧ last (observer run.1) = Some (3, 3)%nat
  ∧ length (filter (λ c : nat * nat, c.1 = 3%nat) (observer run.1)) = 1%nat.
Proof.
  intros run.
  split; [reflexivity|]. split; [reflexivity|].
  refine (proj2 (proj2 (proj2 (progress_once_per_item accepts_all (answer_with plain_response)
            [song_no_id; song_b; song_a] (Some dir_with_b) [] S754_nan))) _).
  simpl. lia.
Defined.

(** ** Files left by a broken stream *)

(** C10.  When the stream breaks off after the output file was opened,
    the item ends as SkippedError and the chunks received so far stay
    in the directory under the target filename.  In any later run on a
    directory that still holds what this one left, with any service and
    any callback, the item ends as SkippedExisting and no request is
    issued for it. *)
Theorem partial_file_blocks_retry {S : Type}
    (can_open : string → bool) (service : list string → string → reply)
    (progress_callback : nat → nat → spec_float → S → S)
    (total : nat) (start_time : spec_float)
    (m : beatmap) (st : run_state S) (id : string) (r : response) (n : Z) :
  extract_beatmapset_id (url m) = Some id →
  files st !! target_filename m id = None →
  service (requests st) (NERINYAN_BASE +:+ id) = Reply r →
  status_ok r = true →
  total_length_of r = inr n →
  n = 0 ∨ 200000 ≤ n →
  open_result can_open (target_filename m id) = inr tt →
  stream_error r = true →
  let st' :=
    (download_one can_open service progress_callback total start_time m st).1 in
  (download_one can_open service progress_callback total start_time m st).2
  = SkippedError
  ∧ files st' = <[target_filename m id := File (mjoin (body r))]> (files st)
  ∧ ∀ (can_open' : string → bool) (service' : list string → string → reply)
      (progress_callback' : nat → nat → spec_float → S → S)
      (l1 l2 : list beatmap) (dir : gmap string entry) (earlier : list string)
      (now : spec_float) (obs : S),
      files st' ⊆ dir →
      (download_missing_maps can_open' service' progress_callback' (l1 ++ m :: l2)
         (Some dir) earlier now obs).2 !! length l1 = Some SkippedExisting
      ∧ requests (download_loop can_open' service' progress_callback'
                    (length (l1 ++ m :: l2)) now (l1 ++ [m])
                    (RunState dir earlier 0%nat obs)).1
        = requests (download_loop can_open' service' progress_callback'
                      (length (l1 ++ m :: l2)) now l1
                      (RunState dir earlier 0%nat obs)).1.
Proof.
  intros Hid Hnone Hrep Hok Htl Hrange Hopen Hbroken st'.
  assert (download_one can_open service progress_callback total start_time m st
          = (advance progress_callback total start_time
               (RunState (<[target_filename m id := File (mjoin (body r))]> (files st))
                  (requests st ++ [NERINYAN_BASE +:+ id]) (done st) (observer st)),
             SkippedError)) as Hstep.
  { unfold download_one. rewrite Hid, Hnone, Hrep. unfold try_body.
    rewrite Hok, Htl. simpl.
    assert (negb (n =? 0) && (n <? 200000) = false) as ->.
    { apply andb_false_iff. destruct Hrange as [->|?]; [by left|right; lia]. }
    by rewrite Hopen, Hbroken, written_mjoin. }
  unfold st'. rewrite Hstep. simpl. split; [done|]. split; [done|].
  intros can_open' service' cb' l1 l2 dir earlier now obs Hsub.
  unfold download_missing_maps. simpl.
  apply loop_existing with id; [done|]. simpl.
  exists (File (mjoin (body r))).
  eapply lookup_weaken; [|done]. apply lookup_insert_eq.
Qed.

Lemma partial_file_blocks_retry_witness :
  (download_one accepts_all (answer_with broken_response) record_call 1 S754_nan
     song_a fresh_run).2 = SkippedError
  ∧ files (download_one accepts_all (answer_with broken_response) record_call 1 S754_nan
             song_a fresh_run).1 !! target_filename song_a "101"
    = Some (File three_bytes)
  ∧ (download_missing_maps accepts_all (answer_with full_response) record_call
       ([song_b] ++ song_a :: [])
       (Some (files (download_one accepts_all (answer_with broken_response) record_call 1
                       S754_nan song_a fresh_run).1)) [] S754_nan []).2 !! 1%nat
    = Some SkippedExisting.
Proof.
  assert (200000 ≤ 250000) as Hge by lia.
  pose proof (partial_file_blocks_retry accepts_all (answer_with broken_response) record_call
                1 S754_nan song_a fresh_run "101" broken_response 250000
                eq_refl eq_refl eq_refl eq_refl eq_refl
                (or_intror Hge) eq_refl eq_refl) as (Hout & Hfiles & Hlater).
  split; [exact Hout|]. split; [reflexivity|].
  exact (proj1 (Hlater accepts_all (answer_with full_response) record_call [song_b] []
                  _ [] S754_nan [] (reflexivity _))).
Defined.

(** ** Archive extraction *)

Lemma listing_complete (dir : gmap string entry) (name : string) :
  name ∈ listing dir ↔ is_Some (dir !! name).
Proof.
  unfold listing. rewrite list_elem_of_fmap. split.
  - intros ([k e] & -> & Hin). apply elem_of_map_to_list in Hin. by exists e.
  - intros [e He]. exists (name, e). split; [done|]. by apply elem_of_map_to_list.
Qed.

Lemma extends_refl dir : extends dir dir.
Proof. intros name. destruct (dir !! name) as [[data|ms]|]; eauto. Qed.

Lemma extends_trans d1 d2 d3 : extends d1 d2 → extends d2 d3 → extends d1 d3.
Proof.
  intros H12 H23 name. specialize (H12 name). specialize (H23 name).
  destruct (d1 !! name) as [[data|ms]|].
  - by rewrite H12 in H23.
  - destruct H12 as [ms' H12]. by rewrite H12 in H23.
  - destruct H12 as [H12|[ms' H12]]; rewrite H12 in H23; [done|by right].
Qed.

Lemma extends_put_folder dir folder members :
  (∀ data, dir !! folder ≠ Some (File data)) →
  extends dir (<[folder := Folder members]> dir).
Proof.
  intros Hfolder name. destruct (decide (folder = name)) as [<-|Hne].
  - rewrite lookup_insert_eq. destruct (dir !! folder) as [[data|ms]|] eqn:Hd.
    + by destruct (Hfolder data).
    + eauto.
    + eauto.
  - rewrite lookup_insert_ne by done. destruct (dir !! name) as [[data|ms]|]; eauto.
Qed.

Section ExtractorFacts.

Variable read_zip : bytes → option (list (string * bytes) * bool).
Variable listdir : gmap string entry → list string.
Hypothesis listdir_complete :
  ∀ dir name, name ∈ listdir dir ↔ is_Some (dir !! name).

Lemma extract_one_extends osz_file dir :
  extends dir (extract_one read_zip osz_file dir).2.
Proof.
  unfold extract_one. destruct (dir !! osz_file) as [[data|ms]|];
    try apply extends_refl.
  destruct (read_zip data) as [[members ok]|]; [|apply extends_refl].
  destruct members as [|member members]; [apply extends_refl|].
  destruct (dir !! splitext_stem osz_file) as [[data'|old]|] eqn:Hstem; simpl.
  - apply extends_refl.
  - apply extends_put_folder. intros data'. by rewrite Hstem.
  - apply extends_put_folder. intros data'. by rewrite Hstem.
Qed.

Lemma extract_pass_spec osz_files dir log :
  extends dir (extract_pass read_zip osz_files dir log).1
  ∧ (extract_pass read_zip osz_files dir log).2 = log ++ (Extract <$> osz_files).
Proof.
  revert dir log. induction osz_files as [|f rest IH]; intros dir log; simpl.
  - split; [apply extends_refl|by rewrite app_nil_r].
  - pose proof (extract_one_extends f dir) as Hone.
    destruct (extract_one read_zip f dir) as [res dir']. simpl in Hone.
    destruct (IH dir' (log ++ [Extract f])) as [Hext Hlog]. split.
    + by eapply extends_trans.
    + rewrite Hlog. by rewrite <- app_assoc.
Qed.

Lemma os_remove_lookup f dir name :
  (os_remove f dir).2 !! name
  = match dir !! name with
    | Some (File data) => if bool_decide (name = f) then None else Some (File data)
    | other => other
    end.
Proof.
  unfold os_remove.
  destruct (dir !! f) as [[data|ms]|] eqn:Hf; simpl;
    destruct (decide (name = f)) as [->|Hne].
  - by rewrite lookup_delete_eq, Hf, bool_decide_eq_true_2.
  - rewrite lookup_delete_ne by done.
    destruct (dir !! name) as [[]|]; [|done..].
    by rewrite bool_decide_eq_false_2 by done.
  - by rewrite Hf.
  - destruct (dir !! name) as [[]|]; [|done..].
    by rewrite bool_decide_eq_false_2 by done.
  - by rewrite Hf.
  - destruct (dir !! name) as [[]|]; [|done..].
    by rewrite bool_decide_eq_false_2 by done.
Qed.

Lemma delete_pass_spec osz_files dir log :
  (∀ name,
     (delete_pass osz_files dir log).1 !! name
     = match dir !! name with
       | Some (File data) =>
           if bool_decide (name ∈ osz_files) then None else Some (File data)
       | other => other
       end)
  ∧ (delete_pass osz_files dir log).2 = log ++ (Remove <$> osz_files).
Proof.
  revert dir log. induction osz_files as [|f rest IH]; intros dir log.
  - simpl. split; [|by rewrite app_nil_r]. intros name.
    by destruct (dir !! name) as [[data|ms]|].
  - cbn [delete_pass]. pose proof (os_remove_lookup f dir) as Hdir'.
    destruct (os_remove f dir) as [res dir']. simpl in Hdir'.
    destruct (IH dir' (log ++ [Remove f])) as [Hlook Hlog]. split.
    + intros name. rewrite Hlook, Hdir'.
      destruct (dir !! name) as [[data|ms]|]; [|done..].
      destruct (decide (name = f)) as [->|Hne].
      * rewrite bool_decide_eq_true_2 by done.
        by rewrite (bool_decide_eq_true_2 (f ∈ f :: rest)) by apply list_elem_of_here.
      * rewrite (bool_decide_eq_false_2 (name = f)) by done.
        rewrite (bool_decide_ext (name ∈ f :: rest) (name ∈ rest)); [done|].
        rewrite elem_of_cons. naive_solver.
    + rewrite Hlog. simpl. by rewrite <- app_assoc.
Qed.

(** C8.  On a directory, the event log of [extract_osz_files] is one
    extraction attempt per listed [.osz] name followed, when
    [delete_after] is set, by one removal attempt per name of the same
    list: the whole extraction pass comes first.  Extraction keeps every
    regular file as it was and only adds or fills folders.  With
    [delete_after] the final directory is the extracted one without the
    archives that were in the directory at the start, each of them gone
    whether or not it could be unpacked; without it nothing is removed.
    No failure of the zip reader escapes: the function returns in every
    case. *)
Theorem extract_then_delete (dir : gmap string entry) (delete_after : bool) :
  let osz_files := filter (λ f, is_osz f = true) (listdir dir) in
  let extracted := (extract_pass read_zip osz_files dir []).1 in
  ∃ final,
    extract_osz_files read_zip listdir (Some dir) delete_after
    = (Some final,
       (Extract <$> osz_files) ++ (if delete_after then Remove <$> osz_files else []))
    ∧ extends dir extracted
    ∧ ∀ name,
        final !! name
        = if delete_after && is_archive dir name then None else extracted !! name.
Proof.
  intros osz_files extracted. unfold extract_osz_files. fold osz_files.
  destruct (extract_pass_spec osz_files dir []) as [Hext Hlog1].
  subst extracted.
  destruct (extract_pass read_zip osz_files dir []) as [dir1 log1].
  simpl in Hext, Hlog1. subst log1. simpl.
  destruct delete_after.
  - destruct (delete_pass_spec osz_files dir1 (Extract <$> osz_files)) as [Hlook Hlog2].
    destruct (delete_pass osz_files dir1 (Extract <$> osz_files)) as [dir2 log2].
    simpl in *. subst log2. exists dir2. split; [done|]. split; [done|].
    intros name. rewrite Hlook. unfold is_archive. specialize (Hext name).
    destruct (dir !! name) as [[data|ms]|] eqn:Hname.
    + rewrite Hext. destruct (is_osz name) eqn:Hosz.
      * rewrite bool_decide_eq_true_2; [done|].
        apply list_elem_of_filter. split; [done|].
        apply listdir_complete. by rewrite Hname.
      * rewrite bool_decide_eq_false_2; [done|].
        intros [Hn _]%list_elem_of_filter. congruence.
    + destruct Hext as [ms' ->]. done.
    + destruct Hext as [->|[ms' ->]]; done.
  - exists dir1. rewrite app_nil_r. done.
Qed.

End ExtractorFacts.

Lemma extract_then_delete_witness :
  ∃ final,
    (extract_osz_files sample_zip listing (Some sample_dir) true).1 = Some final
    ∧ final !! "good.osz" = None
    ∧ final !! "bad.OSZ" = None
    ∧ final !! "notes.txt" = Some (File [])
    ∧ final !! "good" = Some (Folder {[ "map.osu" := [Byte.x01] ]}).
Proof.
  destruct (extract_then_delete sample_zip listing listing_complete sample_dir true)
    as (final & Hrun & _ & Hfinal).
  exists final. split; [by rewrite Hrun|].
  rewrite !Hfinal. repeat split; vm_compute; reflexivity.
Defined.

(** ** The task and the local inventory *)

Lemma inventory_empty_iff (db : option (list (option string))) :
  (get_existing_md5 db).1 = ∅ ↔ db = None ∨ db = Some [].
Proof.
  destruct db as [rows|]; simpl.
  - split.
    + intros Hempty. right. destruct rows as [|row rows]; [done|].
      exfalso. simpl in Hempty.
      assert (row ∈ ({[row]} ∪ list_to_set rows : gset (option string))) as Hin
        by (apply elem_of_union; left; by apply elem_of_singleton).
      rewrite Hempty in Hin. by apply not_elem_of_empty in Hin.
    + by intros [[=]|[= ->]].
  - split; [by left|done].
Qed.

Section TaskClaims.

Variable can_open : string → bool.
Variable float_of_str : string → option spec_float.
Variable catalog : string → result (list beatmap).
Variable service : list string → string → reply.
Variable read_zip : bytes → option (list (string * bytes) * bool).
Variable listdir : gmap string entry → list string.
Variable ask : string → bool.
Variable now : spec_float.

(** C9.  The inventory set is empty exactly when the database file is
    missing or its table holds no row.  In both cases the task stops
    right after reading the inventory: no catalog is requested, no
    download is requested, nothing is extracted or removed, the output
    directory is left as it was, and the only things shown are the
    initial widget updates, the error box when the file is missing, and
    the start button enabled again. *)
Theorem empty_inventory_aborts
    (selected_tables : list string) (level_ranges_int : gmap string (Z * Z))
    (auto_extract : bool) (output_path : option (gmap string entry))
    (db : option (list (option string))) :
  let res := task can_open float_of_str catalog service read_zip listdir ask now
               selected_tables level_ranges_int auto_extract output_path db in
  ((get_existing_md5 db).1 = ∅ ↔ db = None ∨ db = Some [])
  ∧ ((get_existing_md5 db).1 = ∅ →
     catalog_requests res = []
     ∧ download_requests res = []
     ∧ fs_log res = []
     ∧ output_dir res = output_path
     ∧ ui res
       = [Button false; ProgressReset; Status "Preparing..."; Count 0 0]
         ++ (match db with None => [ErrorBox SONGDATA_DB] | Some _ => [] end)
         ++ [Button true]).
Proof.
  intros res. split; [apply inventory_empty_iff|].
  intros Hempty. unfold res, task.
  destruct (get_existing_md5 db) as [existing_md5 ui_db] eqn:Hdb.
  simpl in Hempty. subst existing_md5.
  rewrite decide_True by done. simpl.
  repeat split. destruct db as [rows|]; simpl in Hdb.
  - injection Hdb as _ <-. done.
  - injection Hdb as <-. done.
Qed.

End TaskClaims.

Lemma empty_inventory_aborts_witness :
  let run db := task accepts_all float_of_digits sample_catalog (answer_with plain_response)
                  sample_zip listing always_yes S754_nan ["4K"] ∅ true None db in
  (catalog_requests (run (Some [])) = [] ∧ download_requests (run (Some [])) = []
   ∧ output_dir (run (Some [])) = None)
  ∧ (catalog_requests (run None) = [] ∧ download_requests (run None) = []
     ∧ output_dir (run None) = None).
Proof.
  intros run. split.
  - destruct (proj2 (empty_inventory_aborts accepts_all float_of_digits sample_catalog
                       (answer_with plain_response) sample_zip listing always_yes
                       S754_nan ["4K"] ∅ true None (Some [])) eq_refl)
      as (Hc & Hd & _ & Ho & _).
    split; [exact Hc|]. split; [exact Hd|exact Ho].
  - destruct (proj2 (empty_inventory_aborts accepts_all float_of_digits sample_catalog
                       (answer_with plain_response) sample_zip listing always_yes
                       S754_nan ["4K"] ∅ true None None) eq_refl)
      as (Hc & Hd & _ & Ho & _).
    split; [exact Hc|]. split; [exact Hd|exact Ho].
Defined.

(** With one hash in the inventory the same task goes through: it loads
    the catalog, asks, and downloads the one entry in range that is
    missing. *)
Example task_goes_through :
  let res := task accepts_all float_of_digits sample_catalog (answer_with plain_response)
               sample_zip listing always_yes S754_nan ["4K"] {[ "4K" := (0, 13) ]}
               false None (Some [Some "zz99"]) in
  catalog_requests res
  = ["https://air-afother.github.io/osu-table/osu_mania_4k_final.json"]
  ∧ download_requests res = ["https://api.nerinyan.moe/d/101"]
  ∧ fs_log res = [Extract "Song A - Artist [101].osz"]
  ∧ ui res
    = [Button false; ProgressReset; Status "Preparing..."; Count 0 0;
       Question "Confirm download" true;
       ProgressBar 1 1; StatusEta 1 1 S754_nan; Count 1 1;
       Status "Download complete."; Question "Extract now?" true;
       InfoBox "Extraction complete."; Button true; Status "Idle"].
Proof. vm_compute. repeat split; reflexivity. Qed.

(** * Further properties of the source *)

(** ** Strings *)

Lemma str_app_cons a s1 s2 : String a s1 +:+ s2 = String a (s1 +:+ s2).
Proof. reflexivity. Qed.

Lemma str_app_nil_r s : s +:+ "" = s.
Proof. induction s as [|a s IH]; [done|]. by rewrite str_app_cons, IH. Qed.

Lemma str_app_assoc s1 s2 s3 : (s1 +:+ s2) +:+ s3 = s1 +:+ s2 +:+ s3.
Proof. induction s1 as [|a s1 IH]; [done|]. by rewrite !str_app_cons, IH. Qed.

Lemma strip_prefix_app p s : strip_prefix p (p +:+ s) = Some s.
Proof.
  induction p as [|a p IH]; [by destruct s|].
  rewrite str_app_cons. cbn [strip_prefix]. by rewrite decide_True.
Qed.

Lemma strip_prefix_Some p s t : strip_prefix p s = Some t → s = p +:+ t.
Proof.
  revert s. induction p as [|a p IH]; intros s.
  - destruct s; cbn [strip_prefix]; by intros [= <-].
  - destruct s as [|b s]; [done|]. cbn [strip_prefix].
    destruct (decide (a = b)) as [->|]; [|done].
    intros ->%IH. done.
Qed.

Lemma leading_digits_all s : all_digits (leading_digits s) = true.
Proof.
  induction s as [|a s IH]; [done|]. cbn [leading_digits].
  destruct (is_digit a) eqn:Ha; [|done]. cbn [all_digits]. by rewrite Ha, IH.
Qed.

Lemma leading_digits_split s :
  ∃ post, s = leading_digits s +:+ post ∧ starts_with_digit post = false.
Proof.
  induction s as [|a s (post & Hs & Hpost)]; [by exists ""|].
  cbn [leading_digits]. destruct (is_digit a) eqn:Ha.
  - exists post. rewrite str_app_cons. by rewrite <- Hs.
  - by exists (String a s).
Qed.

Lemma leading_digits_app ds post :
  all_digits ds = true → starts_with_digit post = false →
  leading_digits (ds +:+ post) = ds.
Proof.
  intros Hds Hpost. induction ds as [|a ds IH].
  - destruct post as [|b post]; [done|]. cbn in Hpost.
    change ("" +:+ String b post) with (String b post).
    cbn [leading_digits]. by rewrite Hpost.
  - cbn [all_digits] in Hds. apply andb_true_iff in Hds as [Ha Hds].
    rewrite str_app_cons. cbn [leading_digits]. by rewrite Ha, IH.
Qed.

Lemma match_here_Some s ds :
  match_here s = Some ds ↔
  ds ≠ "" ∧ all_digits ds = true
  ∧ ∃ post, s = "beatmapsets/" +:+ ds +:+ post ∧ starts_with_digit post = false.
Proof.
  unfold match_here. split.
  - destruct (strip_prefix "beatmapsets/" s) as [tail|] eqn:Hp; [|done].
    apply strip_prefix_Some in Hp.
    destruct (leading_digits_split tail) as (post & Htail & Hpost).
    pose proof (leading_digits_all tail) as Hall.
    destruct (leading_digits tail) as [|d ds'] eqn:Hds; [done|].
    intros [= <-]. split; [done|]. split; [done|].
    exists post. by rewrite <- Htail.
  - intros (Hne & Hall & post & -> & Hpost).
    rewrite strip_prefix_app, leading_digits_app by done.
    by destruct ds.
Qed.

Lemma extract_cons a url :
  extract_beatmapset_id (String a url)
  = match match_here (String a url) with
    | Some ds => Some ds
    | None => extract_beatmapset_id url
    end.
Proof. reflexivity. Qed.

Lemma extract_Some_inv url id :
  extract_beatmapset_id url = Some id →
  ∃ pre post,
    url = pre +:+ "beatmapsets/" +:+ id +:+ post
    ∧ id ≠ "" ∧ all_digits id = true.
Proof.
  induction url as [|a url IH]; [by cbn|].
  rewrite extract_cons.
  destruct (match_here (String a url)) as [ds|] eqn:Hhere.
  - intros [= ->]. apply match_here_Some in Hhere as (Hne & Hall & post & Hurl & _).
    by exists "", post.
  - intros (pre & post & Hurl & Hne & Hall)%IH.
    exists (String a pre), post. by rewrite str_app_cons, <- Hurl.
Qed.

Lemma extract_None_inv url pre d post :
  extract_beatmapset_id url = None →
  is_digit d = true →
  url ≠ pre +:+ "beatmapsets/" +:+ String d post.
Proof.
  intros Hnone Hd. revert url Hnone. induction pre as [|a pre IH]; intros url Hnone ->.
  - destruct (leading_digits_split (String d post)) as (rest & Hsplit & Hrest).
    assert (match_here ("beatmapsets/" +:+ String d post)
            = Some (leading_digits (String d post))) as Hhere.
    { apply match_here_Some. split.
      - cbn [leading_digits]. by rewrite Hd.
      - split; [apply leading_digits_all|]. exists rest. by rewrite <- Hsplit. }
    change ("" +:+ "beatmapsets/" +:+ String d post)
      with (String "b" ("eatmapsets/" +:+ String d post)) in Hnone.
    rewrite extract_cons in Hnone.
    change (String "b" ("eatmapsets/" +:+ String d post))
      with ("beatmapsets/" +:+ String d post) in Hnone.
    by rewrite Hhere in Hnone.
  - rewrite str_app_cons, extract_cons in Hnone.
    destruct (match_here _); [done|]. by eapply IH.
Qed.

(** X1.  When [extract_beatmapset_id] answers [id], the url reads
    [pre ++ "beatmapsets/" ++ id ++ post]: [id] is a non-empty run of
    decimal digits, [post] does not go on with a digit (the run is the
    longest one), and the pattern matches at no position inside [pre]
    (the match is the leftmost one). *)
Theorem beatmapset_id_is_leftmost_digit_run (url id : string) :
  extract_beatmapset_id url = Some id →
  ∃ pre post,
    url = pre +:+ "beatmapsets/" +:+ id +:+ post
    ∧ id ≠ "" ∧ all_digits id = true ∧ starts_with_digit post = false
    ∧ ∀ pre1 pre2, pre = pre1 +:+ pre2 → pre2 ≠ "" →
        match_here (pre2 +:+ "beatmapsets/" +:+ id +:+ post) = None.
Proof.
  induction url as [|a url IH].
  - by cbn.
  - rewrite extract_cons.
    destruct (match_here (String a url)) as [ds|] eqn:Hhere.
    + intros [= ->]. apply match_here_Some in Hhere as (Hne & Hall & post & Hurl & Hpost).
      exists "", post. repeat split; try done.
      intros pre1 pre2 Hpre Hne2. destruct pre1, pre2; done.
    + intros (pre & post & Hurl & Hne & Hall & Hpost & Hleft)%IH.
      exists (String a pre), post. rewrite str_app_cons, <- Hurl.
      repeat split; try done.
      intros pre1 pre2 Hpre Hne2. destruct pre1 as [|b pre1].
      * change ("" +:+ pre2) with pre2 in Hpre. subst pre2.
        by rewrite str_app_cons, <- Hurl.
      * rewrite str_app_cons in Hpre. injection Hpre as _ Hpre. by eapply Hleft.
Qed.

Lemma beatmapset_id_is_leftmost_digit_run_witness :
  ∃ pre post,
    "https://osu.ppy.sh/beatmapsets/123456#mania/789"
    = pre +:+ "beatmapsets/" +:+ "123456" +:+ post
    ∧ "123456" ≠ "" ∧ all_digits "123456" = true ∧ starts_with_digit post = false
    ∧ ∀ pre1 pre2, pre = pre1 +:+ pre2 → pre2 ≠ "" →
        match_here (pre2 +:+ "beatmapsets/" +:+ "123456" +:+ post) = None.
Proof.
  apply (beatmapset_id_is_leftmost_digit_run
           "https://osu.ppy.sh/beatmapsets/123456#mania/789" "123456").
  reflexivity.
Defined.

(** X2.  [extract_beatmapset_id] answers [None] exactly when the url
    holds no ["beatmapsets/"] followed by a decimal digit. *)
Theorem beatmapset_id_none_iff (url : string) :
  extract_beatmapset_id url = None ↔
  ∀ pre d post, is_digit d = true → url ≠ pre +:+ "beatmapsets/" +:+ String d post.
Proof.
  split.
  - intros Hnone pre d post Hd. by apply extract_None_inv.
  - intros Hno. destruct (extract_beatmapset_id url) as [id|] eqn:Hid; [|done].
    apply extract_Some_inv in Hid as (pre & post & Hurl & Hne & Hall).
    destruct id as [|d id]; [done|]. cbn [all_digits] in Hall.
    apply andb_true_iff in Hall as [Hd _].
    destruct (Hno pre d (id +:+ post) Hd). by rewrite Hurl, str_app_cons.
Qed.

Lemma beatmapset_id_none_iff_witness :
  extract_beatmapset_id "https://osu.ppy.sh/beatmapsets/abc" = None ↔
  ∀ pre d post, is_digit d = true →
    "https://osu.ppy.sh/beatmapsets/abc" ≠ pre +:+ "beatmapsets/" +:+ String d post.
Proof. apply (beatmapset_id_none_iff "https://osu.ppy.sh/beatmapsets/abc"). Defined.

(** ** File names *)

Lemma chars_app s1 s2 : chars (s1 +:+ s2) = chars s1 ++ chars s2.
Proof.
  induction s1 as [|a s1 IH]; [done|].
  rewrite str_app_cons. cbn [chars]. by rewrite IH.
Qed.

Lemma chars_inj s1 s2 : chars s1 = chars s2 → s1 = s2.
Proof.
  revert s2. induction s1 as [|a s1 IH]; intros [|b s2]; cbn [chars]; try done.
  intros [= -> Hrest]. f_equal. by apply IH.
Qed.

Lemma chars_sanitize name :
  chars (sanitize_filename name)
  = filter (λ c, invalid_char c = false) (chars name).
Proof.
  induction name as [|a name IH]; [done|].
  cbn [sanitize_filename chars]. rewrite filter_cons.
  destruct (invalid_char a) eqn:Ha.
  - by rewrite decide_False by done.
  - rewrite decide_True by done. cbn [chars]. by rewrite IH.
Qed.

(** X3.  [sanitize_filename] keeps the characters outside its class, in
    their order, and nothing else; it therefore commutes with
    concatenation, changes nothing when applied a second time, never
    lengthens a name, and returns a name without any of the nine
    characters unchanged. *)
Theorem sanitize_filename_is_filter (name : string) :
  chars (sanitize_filename name)
  = filter (λ c, invalid_char c = false) (chars name)
  ∧ (∀ other, sanitize_filename (name +:+ other)
              = sanitize_filename name +:+ sanitize_filename other)
  ∧ sanitize_filename (sanitize_filename name) = sanitize_filename name
  ∧ (length (chars (sanitize_filename name)) ≤ length (chars name))%nat
  ∧ (Forall (λ c, invalid_char c = false) (chars name) →
     sanitize_filename name = name).
Proof.
  split; [apply chars_sanitize|]. split; [|split; [|split]].
  - intros other. apply chars_inj.
    by rewrite chars_sanitize, !chars_app, filter_app, !chars_sanitize.
  - apply chars_inj. rewrite !chars_sanitize. apply list_filter_filter_l.
    tauto.
  - rewrite chars_sanitize. apply length_filter.
  - intros Hclean. apply chars_inj. rewrite chars_sanitize.
    induction Hclean as [|c l Hc _ IH]; [done|].
    by rewrite filter_cons_True, IH by done.
Qed.

Lemma sanitize_filename_is_filter_witness :
  sanitize_filename "Song A - Artist" = "Song A - Artist".
Proof.
  apply (proj2 (proj2 (proj2 (proj2 (sanitize_filename_is_filter "Song A - Artist"))))).
  repeat constructor.
Defined.

Lemma rev_app_spec s acc : String.rev_app s acc = String.rev s +:+ acc.
Proof.
  unfold String.rev. revert acc. induction s as [|a s IH]; intros acc; [done|].
  cbn [String.rev_app]. rewrite (IH (String a acc)), (IH (String a "")).
  by rewrite str_app_assoc.
Qed.

Lemma rev_cons a s : String.rev (String a s) = String.rev s +:+ String a "".
Proof. unfold String.rev at 1. cbn [String.rev_app]. apply rev_app_spec. Qed.

Lemma rev_app_distr s1 s2 :
  String.rev (s1 +:+ s2) = String.rev s2 +:+ String.rev s1.
Proof.
  induction s1 as [|a s1 IH].
  - change ("" +:+ s2) with s2. by rewrite str_app_nil_r.
  - by rewrite str_app_cons, !rev_cons, IH, str_app_assoc.
Qed.

Lemma rev_involutive s : String.rev (String.rev s) = s.
Proof.
  induction s as [|a s IH]; [done|].
  by rewrite rev_cons, rev_app_distr, IH.
Qed.

Lemma lower_app s1 s2 : lower (s1 +:+ s2) = lower s1 +:+ lower s2.
Proof.
  induction s1 as [|a s1 IH]; [done|].
  rewrite str_app_cons. cbn [lower]. by rewrite IH.
Qed.

(** X4.  The name under which a map is saved has no path separator,
    ends in [.osz] as the extractor's test wants it, and its stem, the
    folder the extractor unpacks it into, is the name without the
    ending. *)
Theorem target_filename_is_archive_name (m : beatmap) (id : string) :
  extract_beatmapset_id (url m) = Some id →
  contains "/" (target_filename m id) = false
  ∧ is_osz (target_filename m id) = true
  ∧ target_filename m id = splitext_stem (target_filename m id) +:+ ".osz"
  ∧ splitext_stem (target_filename m id)
    = sanitize_filename (title m) +:+ " - " +:+ sanitize_filename (artist m)
        +:+ " [" +:+ id +:+ "]".
Proof.
  intros Hid. split; [by eapply target_filename_flat|].
  set (front := sanitize_filename (title m) +:+ " - " +:+ sanitize_filename (artist m)
                  +:+ " [" +:+ id).
  assert (target_filename m id = (front +:+ "]") +:+ ".osz") as Hname.
  { unfold target_filename, front. by rewrite !str_app_assoc. }
  assert (splitext_stem (target_filename m id) = front +:+ "]") as Hstem.
  { rewrite Hname. unfold splitext_stem.
    rewrite !rev_app_distr, !str_app_assoc. cbn [String.rev String.rev_app].
    change (before_last_dot ("zso." +:+ "]" +:+ String.rev front))
      with (Some ("]" +:+ String.rev front)).
    change (all_dots ("]" +:+ String.rev front)) with false.
    cbv iota. by rewrite rev_app_distr, rev_involutive. }
  split; [|split].
  - rewrite Hname. unfold is_osz, endswith.
    rewrite lower_app, rev_app_distr.
    change (String.rev (lower ".osz")) with (String.rev ".osz").
    by rewrite strip_prefix_app.
  - by rewrite Hstem.
  - rewrite Hstem. unfold front. by rewrite !str_app_assoc.
Qed.

Lemma target_filename_is_archive_name_witness :
  contains "/" (target_filename song_a "101") = false
  ∧ is_osz (target_filename song_a "101") = true
  ∧ target_filename song_a "101"
    = splitext_stem (target_filename song_a "101") +:+ ".osz"
  ∧ splitext_stem (target_filename song_a "101")
    = sanitize_filename (title song_a) +:+ " - " +:+ sanitize_filename (artist song_a)
        +:+ " [" +:+ "101" +:+ "]".
Proof. apply (target_filename_is_archive_name song_a "101"). reflexivity. Defined.

(** ** The download loop: what it writes and what it requests *)

Lemma try_body_inv can_open rep filename dir res dir' :
  try_body can_open rep filename dir = (res, dir') →
  (dir' = dir ∧ res ≠ inr FellThrough)
  ∨ (∃ data, dir' = <[filename := File data]> dir ∧ res ≠ inr Continued).
Proof.
  unfold try_body. destruct rep as [|r]; [intros [= <- <-]; by left|].
  destruct (status_ok r); simpl; [|intros [= <- <-]; by left].
  destruct (total_length_of r) as [e|n]; [intros [= <- <-]; by left|].
  destruct (negb (n =? 0) && (n <? 200000)); [intros [= <- <-]; by left|].
  destruct (open_result can_open filename) as [e|opened]; [intros [= <- <-]; by left|].
  destruct (stream_error r); intros [= <- <-]; right; by eexists.
Qed.

Lemma omap_length_le {A B} (f : A → option B) (l : list A) :
  (length (omap f l) ≤ length l)%nat.
Proof.
  induction l as [|a l IH]; csimpl; [lia|].
  destruct (f a); csimpl; lia.
Qed.

Section EngineMore.

Context {S : Type}.
Variable can_open : string → bool.
Variable service : list string → string → reply.
Variable progress_callback : nat → nat → spec_float → S → S.
Variable total : nat.
Variable start_time : spec_float.

Abbreviation step := (download_one can_open service progress_callback total start_time).
Abbreviation loop := (download_loop can_open service progress_callback total start_time).

(** All that one iteration can do, by outcome. *)
Lemma step_cases m st :
  requests (step m st).1 = requests st ++ option_list (request_of m (step m st).2)
  ∧ ((step m st).2 = SkippedNoAssetId ↔ extract_beatmapset_id (url m) = None)
  ∧ ((files (step m st).1 = files st ∧ (step m st).2 ≠ Fetched)
     ∨ ∃ id data,
         extract_beatmapset_id (url m) = Some id
         ∧ files st !! target_filename m id = None
         ∧ files (step m st).1 = <[target_filename m id := File data]> (files st))
  ∧ (leaves_file (step m st).2 = true →
     ∃ id, extract_beatmapset_id (url m) = Some id
           ∧ is_Some (files (step m st).1 !! target_filename m id)).
Proof.
  unfold download_one, request_of.
  destruct (extract_beatmapset_id (url m)) as [id|] eqn:Hid; simpl.
  - destruct (files st !! target_filename m id) as [e|] eqn:Hf; simpl.
    + rewrite app_nil_r. repeat split; try done; [by left|].
      intros _. exists id. by rewrite Hf.
    + destruct (try_body _ _ _ _) as [res dir'] eqn:Hb.
      apply try_body_inv in Hb as [[-> Hres]|(data & -> & Hres)].
      * destruct res as [e|[]]; simpl; repeat split; try done; by left.
      * destruct res as [e|[]]; simpl; repeat split; try done;
          try (right; by exists id, data).
        intros _. exists id. rewrite lookup_insert_eq. by eexists.
  - rewrite app_nil_r. repeat split; try done. by left.
Qed.

Lemma step_new_entry m st name e :
  files (step m st).1 !! name = Some e →
  files st !! name = None →
  ∃ id data, extract_beatmapset_id (url m) = Some id
             ∧ name = target_filename m id ∧ e = File data.
Proof.
  intros Hnew Hold.
  destruct (step_cases m st) as (_ & _ & [[Hsame _]|(id & data & Hid & _ & Hins)] & _).
  - rewrite Hsame in Hnew. congruence.
  - rewrite Hins in Hnew. exists id, data. split; [done|].
    destruct (decide (target_filename m id = name)) as [<-|Hne].
    + rewrite lookup_insert_eq in Hnew. by injection Hnew as <-.
    + rewrite lookup_insert_ne in Hnew by done. congruence.
Qed.

(** X5.  The download loop never removes or changes an entry of the
    directory, and every entry it adds is a regular file saved under the
    target filename of a work item that carries a beatmapset id. *)
Theorem download_only_adds_archives (missing_maps : list beatmap) (st : run_state S) :
  files st ⊆ files (loop missing_maps st).1
  ∧ ∀ name e,
      files (loop missing_maps st).1 !! name = Some e →
      files st !! name = None →
      ∃ m id data,
        m ∈ missing_maps ∧ extract_beatmapset_id (url m) = Some id
        ∧ name = target_filename m id ∧ e = File data.
Proof.
  split; [apply loop_files|].
  revert st. induction missing_maps as [|m l IH]; intros st name e.
  - simpl. congruence.
  - rewrite loop_cons. simpl. intros Hfinal Hold.
    destruct (files (step m st).1 !! name) as [e1|] eqn:Hmid.
    + assert (e = e1) as ->.
      { pose proof (loop_files can_open service progress_callback total start_time l
                      (step m st).1) as Hsub.
        eapply lookup_weaken in Hmid; [|exact Hsub]. congruence. }
      destruct (step_new_entry m st name e1 Hmid Hold) as (id & data & ? & ? & ?).
      exists m, id, data. split; [apply list_elem_of_here|done].
    + destruct (IH _ _ _ Hfinal Hmid) as (m' & id & data & ? & ?).
      exists m', id, data. split; [by apply list_elem_of_further|done].
Qed.

Lemma loop_requests l st :
  requests (loop l st).1
  = requests st ++ omap (λ mo, request_of mo.1 mo.2) (zip l (loop l st).2).
Proof.
  revert st. induction l as [|m l IH]; intros st.
  - simpl. by rewrite app_nil_r.
  - rewrite loop_cons. simpl. rewrite IH.
    destruct (step_cases m st) as (-> & _).
    rewrite <- app_assoc. f_equal.
    by destruct (request_of m (step m st).2).
Qed.

Lemma quiet_outcomes_no_requests (l : list beatmap) (outs : list outcome) :
  Forall (λ o, issues_request o = false) outs →
  omap (λ mo : beatmap * outcome, request_of mo.1 mo.2) (zip l outs) = [].
Proof.
  revert outs. induction l as [|m l IH]; intros outs Hquiet; [done|].
  destruct outs as [|o outs]; [done|].
  apply Forall_cons in Hquiet as [Ho Hrest]. csimpl.
  unfold request_of at 1. simpl. rewrite Ho. by apply IH.
Qed.

(** X6.  The requests of a run are, in order, one GET of
    [NERINYAN_BASE + id] for each work item that ended as Fetched,
    SkippedUndersized or SkippedError, and none for the items without
    an id or with their file already there; so a run sends at most one
    request per work item. *)
Theorem requests_follow_outcomes (missing_maps : list beatmap) (st : run_state S) :
  requests (loop missing_maps st).1
  = requests st
    ++ omap (λ mo, request_of mo.1 mo.2) (zip missing_maps (loop missing_maps st).2)
  ∧ (length (requests (loop missing_maps st).1)
     ≤ length (requests st) + length missing_maps)%nat
  ∧ (Forall (λ o, issues_request o = false) (loop missing_maps st).2 →
     requests (loop missing_maps st).1 = requests st).
Proof.
  pose proof (loop_requests missing_maps st) as Hreq.
  split; [done|]. split.
  - rewrite Hreq, length_app.
    pose proof (omap_length_le (λ mo : beatmap * outcome, request_of mo.1 mo.2)
                  (zip missing_maps (loop missing_maps st).2)) as Hle.
    rewrite length_zip, loop_outcomes in Hle. lia.
  - intros Hquiet. rewrite Hreq.
    by rewrite quiet_outcomes_no_requests, app_nil_r.
Qed.

Lemma loop_outcome_at l st i m o :
  l !! i = Some m →
  (loop l st).2 !! i = Some o →
  (o = SkippedNoAssetId ↔ extract_beatmapset_id (url m) = None)
  ∧ (leaves_file o = true →
     ∃ id, extract_beatmapset_id (url m) = Some id
           ∧ is_Some (files (loop l st).1 !! target_filename m id)).
Proof.
  revert st i. induction l as [|m0 l IH]; intros st i; [done|].
  rewrite loop_cons. simpl. destruct i as [|i]; simpl.
  - intros [= ->] [= <-].
    destruct (step_cases m st) as (_ & Hnoid & _ & Hfile).
    split; [done|]. intros (id & Hid & [e He])%Hfile.
    exists id. split; [done|]. exists e.
    eapply lookup_weaken; [done|apply loop_files].
  - apply IH.
Qed.

(** X7.  In the outcomes of a run, SkippedNoAssetId marks exactly the
    items whose url gives no beatmapset id, and every item that ended
    as Fetched or SkippedExisting has its target file in the directory
    when the run is over. *)
Theorem outcomes_match_directory (missing_maps : list beatmap) (st : run_state S)
    (i : nat) (m : beatmap) (o : outcome) :
  missing_maps !! i = Some m →
  (loop missing_maps st).2 !! i = Some o →
  (o = SkippedNoAssetId ↔ extract_beatmapset_id (url m) = None)
  ∧ (o = Fetched ∨ o = SkippedExisting →
     ∃ id, extract_beatmapset_id (url m) = Some id
           ∧ is_Some (files (loop missing_maps st).1 !! target_filename m id)).
Proof.
  intros Hm Ho. destruct (loop_outcome_at _ _ _ _ _ Hm Ho) as [Hnoid Hfile].
  split; [done|]. intros [->| ->]; by apply Hfile.
Qed.

(** X9.  Without a content-length header, or with an empty one, there is
    no size test: whatever the body, once the target file can be opened
    for writing a clean stream is written to it and the item ends as
    Fetched. *)
Theorem undeclared_length_is_written m st id r :
  extract_beatmapset_id (url m) = Some id →
  files st !! target_filename m id = None →
  service (requests st) (NERINYAN_BASE +:+ id) = Reply r →
  status_ok r = true →
  content_length r = None ∨ content_length r = Some "" →
  open_result can_open (target_filename m id) = inr tt →
  stream_error r = false →
  (step m st).2 = Fetched
  ∧ files (step m st).1
    = <[target_filename m id := File (mjoin (body r))]> (files st).
Proof.
  intros Hid Hnone Hrep Hok Hlen Hopen Hstream.
  assert (total_length_of r = inr 0) as Htl.
  { unfold total_length_of. by destruct Hlen as [-> | ->]. }
  unfold download_one. rewrite Hid, Hnone, Hrep. unfold try_body.
  rewrite Hok, Htl. simpl. by rewrite Hopen, Hstream, written_mjoin.
Qed.

(** X10.  A failure that comes before the output file is opened (the
    request raising, an error status, a length header that [int]
    refuses) ends the item as SkippedError with the directory exactly
    as it was; the request is in the log all the same. *)
Theorem early_failure_leaves_no_file m st id :
  extract_beatmapset_id (url m) = Some id →
  files st !! target_filename m id = None →
  (service (requests st) (NERINYAN_BASE +:+ id) = NoReply
   ∨ ∃ r, service (requests st) (NERINYAN_BASE +:+ id) = Reply r
          ∧ (status_ok r = false
             ∨ ∃ s, content_length r = Some s ∧ s ≠ "" ∧ py_int s = None)) →
  (step m st).2 = SkippedError
  ∧ files (step m st).1 = files st
  ∧ requests (step m st).1 = requests st ++ [NERINYAN_BASE +:+ id].
Proof.
  intros Hid Hnone Hfail. unfold download_one. rewrite Hid, Hnone.
  destruct Hfail as [-> | (r & -> & [Hbad | (s & Hlen & Hne & Hint)])]; [done|..].
  - unfold try_body. by rewrite Hbad.
  - unfold try_body, total_length_of. rewrite Hlen.
    destruct (status_ok r); simpl; [|done].
    destruct s as [|c s]; [done|]. by rewrite Hint.
Qed.

(** X25.  When the response passes the size test and the output file
    cannot be opened (a NUL character in the name, or a refusal of the
    file system), the exception is absorbed like any other: the item
    ends as SkippedError, the directory is exactly as it was, and the
    request is in the log. *)
Theorem unopenable_file_is_skipped m st id r n e :
  extract_beatmapset_id (url m) = Some id →
  files st !! target_filename m id = None →
  service (requests st) (NERINYAN_BASE +:+ id) = Reply r →
  status_ok r = true →
  total_length_of r = inr n →
  n = 0 ∨ 200000 ≤ n →
  open_result can_open (target_filename m id) = inl e →
  (step m st).2 = SkippedError
  ∧ files (step m st).1 = files st
  ∧ requests (step m st).1 = requests st ++ [NERINYAN_BASE +:+ id].
Proof.
  intros Hid Hnone Hrep Hok Htl Hrange Hopen.
  unfold download_one. rewrite Hid, Hnone, Hrep. unfold try_body.
  rewrite Hok, Htl. simpl.
  assert (negb (n =? 0) && (n <? 200000) = false) as ->.
  { apply andb_false_iff. destruct Hrange as [->|?]; [by left|right; lia]. }
  by rewrite Hopen.
Qed.

End EngineMore.

Lemma step_quiet {S : Type} can_open service (cb : nat → nat → spec_float → S → S)
    total t m (st : run_state S) :
  issues_request (download_one can_open service cb total t m st).2 = false →
  files (download_one can_open service cb total t m st).1 = files st.
Proof.
  unfold download_one. destruct (extract_beatmapset_id (url m)) as [id|]; [|done].
  destruct (files st !! target_filename m id); [done|].
  destruct (try_body _ _ _ _) as [[e|[]] dir']; done.
Qed.

Lemma loop_quiet {S : Type} can_open service (cb : nat → nat → spec_float → S → S)
    total t l (st : run_state S) :
  Forall (λ o, issues_request o = false) (download_loop can_open service cb total t l st).2 →
  files (download_loop can_open service cb total t l st).1 = files st.
Proof.
  revert st. induction l as [|m l IH]; intros st; [done|].
  rewrite loop_cons. simpl. intros [Ho Hrest]%Forall_cons.
  rewrite IH by done. by apply step_quiet.
Qed.

Lemma loop_outcome_defined {S : Type} can_open service (cb : nat → nat → spec_float → S → S)
    total t l (st : run_state S) i m :
  l !! i = Some m → is_Some ((download_loop can_open service cb total t l st).2 !! i).
Proof.
  intros Hm. apply lookup_lt_is_Some. rewrite loop_outcomes.
  by eapply lookup_lt_Some.
Qed.

(** X8.  Running the loop again, with any service, on the directory a
    first run left: every item that had ended as Fetched or
    SkippedExisting is now SkippedExisting, every item without an id is
    SkippedNoAssetId again, and when the first run had no undersized
    and no failed item the second one sends no request and leaves the
    directory as it found it. *)
Theorem rerun_skips_saved_files {S : Type}
    (can_open can_open' : string → bool)
    (service service' : list string → string → reply)
    (cb cb' : nat → nat → spec_float → S → S) (total total' : nat)
    (t t' : spec_float) (missing_maps : list beatmap) (st : run_state S)
    (earlier : list string) (obs : S) :
  let first := download_loop can_open service cb total t missing_maps st in
  let second := download_loop can_open' service' cb' total' t' missing_maps
                  (RunState (files first.1) earlier 0%nat obs) in
  (∀ i o, first.2 !! i = Some o → leaves_file o = true →
          second.2 !! i = Some SkippedExisting)
  ∧ (∀ i, first.2 !! i = Some SkippedNoAssetId →
          second.2 !! i = Some SkippedNoAssetId)
  ∧ (Forall (λ o, o ≠ SkippedUndersized ∧ o ≠ SkippedError) first.2 →
     requests second.1 = earlier ∧ files second.1 = files first.1).
Proof.
  intros first second.
  assert (∀ i o, first.2 !! i = Some o →
            ∃ m, missing_maps !! i = Some m) as Hitem.
  { intros i o Ho. apply lookup_lt_is_Some.
    apply lookup_lt_Some in Ho. unfold first in Ho. by rewrite loop_outcomes in Ho. }
  assert (∀ i o, first.2 !! i = Some o → leaves_file o = true →
            second.2 !! i = Some SkippedExisting) as Hsaved.
  { intros i o Ho Hleft. destruct (Hitem i o Ho) as [m Hm].
    destruct (loop_outcome_at can_open service cb total t missing_maps st i m o Hm Ho)
      as [_ Hfile]. destruct (Hfile Hleft) as (id & Hid & Hex).
    pose proof (take_drop_middle missing_maps i m Hm) as Hsplit.
    pose proof (loop_existing can_open' service' cb' total' t' (take i missing_maps) m
                  (drop (Datatypes.S i) missing_maps)
                  (RunState (files first.1) earlier 0%nat obs) id Hid Hex)
      as [Hout _].
    rewrite Hsplit in Hout. rewrite length_take_le in Hout; [done|].
    apply lookup_lt_Some in Hm. lia. }
  assert (∀ i, first.2 !! i = Some SkippedNoAssetId →
            second.2 !! i = Some SkippedNoAssetId) as Hnoid.
  { intros i Ho. destruct (Hitem i _ Ho) as [m Hm].
    destruct (loop_outcome_at can_open service cb total t missing_maps st i m _ Hm Ho)
      as [Hnone _].
    destruct (loop_outcome_defined can_open' service' cb' total' t' missing_maps
                (RunState (files first.1) earlier 0%nat obs) i m Hm) as [o2 Ho2].
    fold second in Ho2. rewrite Ho2. f_equal.
    eapply (loop_outcome_at can_open' service' cb' total' t'); [done..|]. by apply Hnone. }
  split; [done|]. split; [done|].
  intros Hclean.
  assert (Forall (λ o, issues_request o = false) second.2) as Hquiet.
  { apply Forall_lookup. intros i o2 Ho2.
    assert (is_Some (first.2 !! i)) as [o1 Ho1].
    { apply lookup_lt_is_Some. apply lookup_lt_Some in Ho2.
      unfold first, second in *. rewrite loop_outcomes in *. done. }
    pose proof (proj1 (Forall_lookup _ _) Hclean i o1 Ho1) as [Hu He].
    destruct o1; try done.
    - rewrite (Hsaved i Fetched Ho1 eq_refl) in Ho2. by injection Ho2 as <-.
    - rewrite (Hsaved i SkippedExisting Ho1 eq_refl) in Ho2. by injection Ho2 as <-.
    - rewrite (Hnoid i Ho1) in Ho2. by injection Ho2 as <-. }
  split.
  - unfold second. rewrite loop_requests. fold second.
    by rewrite quiet_outcomes_no_requests, app_nil_r.
  - unfold second. by rewrite loop_quiet.
Qed.

Lemma download_only_adds_archives_witness :
  ∃ m id data,
    m ∈ [song_no_id; song_b; song_a]
    ∧ extract_beatmapset_id (url m) = Some id
    ∧ "Song A - Artist [101].osz" = target_filename m id
    ∧ File three_bytes = File data.
Proof.
  apply (proj2 (download_only_adds_archives accepts_all (answer_with plain_response) record_call
                  3 S754_nan [song_no_id; song_b; song_a]
                  (RunState dir_with_b [] 0%nat []))
           "Song A - Artist [101].osz" (File three_bytes)); reflexivity.
Defined.

Lemma requests_follow_outcomes_witness :
  requests (download_loop accepts_all (answer_with plain_response) record_call 2 S754_nan
              [song_no_id; song_b] (RunState dir_with_b [] 0%nat [])).1 = [].
Proof.
  apply (proj2 (proj2 (requests_follow_outcomes accepts_all (answer_with plain_response)
                         record_call 2 S754_nan [song_no_id; song_b]
                         (RunState dir_with_b [] 0%nat [])))).
  repeat constructor.
Defined.

Lemma outcomes_match_directory_witness :
  (Fetched = SkippedNoAssetId ↔ extract_beatmapset_id (url song_a) = None)
  ∧ (Fetched = Fetched ∨ Fetched = SkippedExisting →
     ∃ id, extract_beatmapset_id (url song_a) = Some id
           ∧ is_Some (files (download_loop accepts_all (answer_with plain_response) record_call
                               3 S754_nan [song_no_id; song_b; song_a]
                               (RunState dir_with_b [] 0%nat [])).1
                      !! target_filename song_a id)).
Proof.
  apply (outcomes_match_directory accepts_all (answer_with plain_response) record_call 3 S754_nan
           [song_no_id; song_b; song_a] (RunState dir_with_b [] 0%nat [])
           2 song_a Fetched); reflexivity.
Defined.

Lemma undeclared_length_is_written_witness :
  (download_one accepts_all (answer_with plain_response) record_call 1 S754_nan
     song_a fresh_run).2 = Fetched
  ∧ files (download_one accepts_all (answer_with plain_response) record_call 1 S754_nan
             song_a fresh_run).1
    = <[target_filename song_a "101" := File (mjoin (body plain_response))]>
        (files fresh_run).
Proof.
  apply (undeclared_length_is_written accepts_all (answer_with plain_response) record_call
           1 S754_nan song_a fresh_run "101" plain_response);
    first [reflexivity | by left].
Defined.

Lemma unopenable_file_is_skipped_witness :
  (download_one accepts_all (answer_with full_response) record_call 1 S754_nan
     song_nul fresh_run).2 = SkippedError
  ∧ files (download_one accepts_all (answer_with full_response) record_call 1 S754_nan
             song_nul fresh_run).1 = files fresh_run
  ∧ requests (download_one accepts_all (answer_with full_response) record_call 1
                S754_nan song_nul fresh_run).1
    = requests fresh_run ++ [NERINYAN_BASE +:+ "106"].
Proof.
  assert (200000 ≤ 250000) as Hge by lia.
  exact (unopenable_file_is_skipped accepts_all (answer_with full_response) record_call
           1 S754_nan song_nul fresh_run "106" full_response 250000 ValueError
           eq_refl eq_refl eq_refl eq_refl eq_refl (or_intror Hge) eq_refl).
Defined.

Lemma early_failure_leaves_no_file_witness :
  (download_one accepts_all flaky_service record_call 1 S754_nan song_b fresh_run).2 = SkippedError
  ∧ files (download_one accepts_all flaky_service record_call 1 S754_nan song_b fresh_run).1
    = files fresh_run
  ∧ requests (download_one accepts_all flaky_service record_call 1 S754_nan song_b fresh_run).1
    = requests fresh_run ++ [NERINYAN_BASE +:+ "102"].
Proof.
  apply (early_failure_leaves_no_file accepts_all flaky_service record_call 1 S754_nan
           song_b fresh_run "102"); [reflexivity|reflexivity|].
  left. reflexivity.
Defined.

Lemma rerun_skips_saved_files_witness :
  let first := download_loop accepts_all (answer_with plain_response) record_call 3 S754_nan
                 [song_no_id; song_b; song_a] (RunState dir_with_b [] 0%nat []) in
  let second := download_loop accepts_all flaky_service record_call 3 S754_nan
                  [song_no_id; song_b; song_a]
                  (RunState (files first.1) [] 0%nat []) in
  requests second.1 = [] ∧ files second.1 = files first.1.
Proof.
  apply (proj2 (proj2 (rerun_skips_saved_files accepts_all accepts_all (answer_with plain_response)
                         flaky_service record_call record_call 3 3 S754_nan S754_nan
                         [song_no_id; song_b; song_a]
                         (RunState dir_with_b [] 0%nat []) [] []))).
  repeat (constructor; [split; discriminate|]). constructor.
Defined.

(** ** Archive extraction: what is left and what is unpacked *)

Lemma unpack_lookup (members : list (string * bytes)) (old : gmap string bytes) k :
  is_Some (unpack members old !! k) ↔ k ∈ members.*1 ∨ is_Some (old !! k).
Proof.
  unfold unpack. revert old. induction members as [|[k0 v0] members IH]; intros old.
  - simpl. split; [by right|]. intros [Hin|?]; [by inversion Hin|done].
  - simpl. rewrite IH, elem_of_cons. destruct (decide (k0 = k)) as [->|Hne].
    + rewrite lookup_insert_eq. split; [intros _; by left; left|]. intros _. right. by eexists.
    + rewrite lookup_insert_ne by done. naive_solver.
Qed.

Section ExtractorMore.

Variable read_zip : bytes → option (list (string * bytes) * bool).
Variable listdir : gmap string entry → list string.
Hypothesis listdir_complete :
  ∀ dir name, name ∈ listdir dir ↔ is_Some (dir !! name).

Lemma extract_one_has_members f dir folder_name keys :
  has_members dir folder_name keys →
  has_members (extract_one read_zip f dir).2 folder_name keys.
Proof.
  intros (folder & Hfolder & Hkeys). unfold extract_one.
  destruct (dir !! f) as [[data|ms]|]; try by exists folder.
  destruct (read_zip data) as [[members ok]|]; [|by exists folder].
  destruct members as [|member members]; [by exists folder|].
  destruct (decide (splitext_stem f = folder_name)) as [Heq|Hne].
  - rewrite Heq, Hfolder. lazy beta iota zeta delta [snd].
    eexists. rewrite lookup_insert_eq.
    split; [done|]. intros k Hk. apply unpack_lookup. right. by apply Hkeys.
  - destruct (dir !! splitext_stem f) as [[data'|old]|];
      lazy beta iota zeta delta [snd];
      [by exists folder|..]; exists folder; by rewrite lookup_insert_ne.
Qed.

Lemma extract_one_unpacks name dir data members ok :
  dir !! name = Some (File data) →
  read_zip data = Some (members, ok) →
  members ≠ [] →
  (∀ d, dir !! splitext_stem name ≠ Some (File d)) →
  has_members (extract_one read_zip name dir).2 (splitext_stem name) members.*1.
Proof.
  intros Hname Hzip Hne Hstem. unfold extract_one. rewrite Hname, Hzip.
  destruct members as [|member members]; [done|].
  destruct (dir !! splitext_stem name) as [[d|old]|] eqn:Hs;
    lazy beta iota zeta delta [snd].
  - by destruct (Hstem d).
  - eexists. rewrite lookup_insert_eq. split; [done|].
    intros k Hk. apply unpack_lookup. by left.
  - eexists. rewrite lookup_insert_eq. split; [done|].
    intros k Hk. apply unpack_lookup. by left.
Qed.

Lemma extends_not_file dir dir' name :
  extends dir dir' →
  (∀ d, dir !! name ≠ Some (File d)) → ∀ d, dir' !! name ≠ Some (File d).
Proof.
  intros Hext Hnot d Hd. specialize (Hext name).
  destruct (dir !! name) as [[d0|ms]|] eqn:Hn.
  - by destruct (Hnot d0).
  - destruct Hext as [ms' Hext]. congruence.
  - destruct Hext as [Hext|[ms' Hext]]; congruence.
Qed.

Lemma extract_pass_unpacks osz_files dir log name data members ok :
  dir !! name = Some (File data) →
  read_zip data = Some (members, ok) →
  members ≠ [] →
  (∀ d, dir !! splitext_stem name ≠ Some (File d)) →
  name ∈ osz_files ∨ has_members dir (splitext_stem name) members.*1 →
  has_members (extract_pass read_zip osz_files dir log).1
    (splitext_stem name) members.*1.
Proof.
  intros Hname Hzip Hne. revert dir log Hname.
  induction osz_files as [|f rest IH]; intros dir log Hname Hstem Hcase.
  - simpl. destruct Hcase as [Hin|?]; [by inversion Hin|done].
  - cbn [extract_pass].
    pose proof (extract_one_extends read_zip f dir) as Hext.
    assert (has_members (extract_one read_zip f dir).2 (splitext_stem name) members.*1
            ∨ name ∈ rest) as Hnext.
    { destruct Hcase as [[->|Hin]%elem_of_cons|Hhas].
      - left. by eapply extract_one_unpacks.
      - by right.
      - left. by apply extract_one_has_members. }
    destruct (extract_one read_zip f dir) as [res dir1]. simpl in Hext, Hnext.
    apply IH.
    + specialize (Hext name). by rewrite Hname in Hext.
    + by eapply extends_not_file.
    + tauto.
Qed.


(** X12.  An archive of the directory that the zip reader can open, with
    at least one member, and whose stem is not the name of a regular
    file, is unpacked: when [extract_osz_files] returns, the folder
    named by the stem exists and holds a member for every name in the
    archive, with or without [delete_after] and also when the reader
    failed after writing them. *)
Theorem archive_members_are_unpacked (dir : gmap string entry) (delete_after : bool)
    (name : string) (data : bytes) (members : list (string * bytes)) (ok : bool) :
  dir !! name = Some (File data) →
  is_osz name = true →
  read_zip data = Some (members, ok) →
  members ≠ [] →
  (∀ d, dir !! splitext_stem name ≠ Some (File d)) →
  ∃ final,
    (extract_osz_files read_zip listdir (Some dir) delete_after).1 = Some final
    ∧ has_members final (splitext_stem name) members.*1.
Proof.
  intros Hname Hosz Hzip Hne Hstem. unfold extract_osz_files.
  set (osz_files := filter (λ f, is_osz f = true) (listdir dir)).
  assert (name ∈ osz_files) as Hin.
  { apply list_elem_of_filter. split; [done|].
    apply listdir_complete. by rewrite Hname. }
  pose proof (extract_pass_unpacks osz_files dir [] name data members ok
                Hname Hzip Hne Hstem (or_introl Hin)) as Hhas.
  destruct (extract_pass read_zip osz_files dir []) as [dir1 log1]. simpl in Hhas.
  destruct delete_after; [|by exists dir1].
  destruct (delete_pass_spec read_zip listdir listdir_complete osz_files dir1 log1)
    as [Hlook _].
  destruct (delete_pass osz_files dir1 log1) as [dir2 log2]. simpl in Hlook.
  exists dir2. split; [done|].
  destruct Hhas as (folder & Hfolder & Hkeys). exists folder.
  split; [|done]. by rewrite Hlook, Hfolder.
Qed.

End ExtractorMore.


Lemma archive_members_are_unpacked_witness :
  ∃ final,
    (extract_osz_files sample_zip listing (Some sample_dir) true).1 = Some final
    ∧ has_members final "good" ["map.osu"].
Proof.
  apply (archive_members_are_unpacked sample_zip listing listing_complete sample_dir
           true "good.osz" [Byte.x50; Byte.x4b; Byte.x01]
           [("map.osu", [Byte.x01])] true);
    try reflexivity; [discriminate|].
  intros d. vm_compute. discriminate.
Defined.

(** ** Ranges and repeated deduplication *)

Lemma in_range_bounds float_min float_max lvl :
  in_range float_min float_max lvl = true → float_min ≤ float_max.
Proof.
  unfold in_range. intros [Hlo Hhi]%andb_true_iff.
  destruct lvl as [s|s| |s m e]; simpl in Hlo, Hhi.
  - lia.
  - by destruct s.
  - done.
  - destruct (0 <=? e) eqn:He.
    + lia.
    + assert (0 < 2 ^ (- e)) as Hpos by (apply Z.pow_pos_nonneg; lia).
      apply Z.leb_le in Hlo, Hhi. nia.
Qed.

(** X13.  The two bounds are compared with the level as they are: when
    the minimum is above the maximum no entry passes, so the loop over
    that table's catalog appends nothing. *)
Theorem crossed_bounds_select_nothing
    (float_of_str : string → option spec_float)
    (maps combined_maps : list beatmap) (min_i max_i : Z) :
  max_i < min_i →
  level_loop float_of_str maps min_i max_i combined_maps = combined_maps.
Proof.
  intros Hcrossed. rewrite level_loop_filter.
  assert (filter (λ m, level_ok float_of_str min_i max_i m = true) maps = []) as ->;
    [|by rewrite app_nil_r].
  induction maps as [|m maps IH]; [done|].
  rewrite filter_cons_False; [done|]. unfold level_ok.
  destruct (py_float float_of_str (level m)) as [e|lvl]; [done|].
  intros Hr%in_range_bounds. lia.
Qed.

Lemma crossed_bounds_select_nothing_witness :
  level_loop float_of_digits [song_a; song_b; song_c] 13 0 [] = [].
Proof.
  apply (crossed_bounds_select_nothing float_of_digits [song_a; song_b; song_c] [] 13 0).
  lia.
Defined.

Lemma dedup_loop_fixed l seen :
  NoDup (md5 <$> l) →
  (∀ m, m ∈ l → ∃ h, md5 m = Some h ∧ h ≠ "" ∧ h ∉ seen) →
  dedup_loop l seen [] = l.
Proof.
  revert seen. induction l as [|m l IH]; intros seen Hnd Hall; [done|].
  destruct (Hall m) as (h & Hm & Hne & Hnin); [apply list_elem_of_here|].
  cbn [dedup_loop]. rewrite Hm.
  rewrite bool_decide_eq_false_2, bool_decide_eq_false_2 by done. simpl.
  rewrite dedup_loop_acc. simpl. f_equal.
  rewrite fmap_cons in Hnd. apply NoDup_cons in Hnd as [Hfresh Hnd].
  apply IH; [done|]. intros m' Hm'.
  destruct (Hall m') as (h' & Hm'h & Hne' & Hnin'); [by apply list_elem_of_further|].
  exists h'. split; [done|]. split; [done|].
  rewrite elem_of_union, elem_of_singleton. intros [->|?]; [|done].
  apply Hfresh. rewrite Hm, <- Hm'h. by apply list_elem_of_fmap_2.
Qed.

(** X14.  Deduplicating a second time changes nothing, and a sequence
    whose entries already carry distinct, non-empty hashes comes back
    as it is. *)
Theorem dedup_is_idempotent (combined_maps : list beatmap) :
  unique_of (unique_of combined_maps) = unique_of combined_maps
  ∧ (NoDup (md5 <$> combined_maps) →
     Forall (λ m, ∃ h, md5 m = Some h ∧ h ≠ "") combined_maps →
     unique_of combined_maps = combined_maps).
Proof.
  split.
  - unfold unique_of at 1. apply dedup_loop_fixed; [apply dedup_loop_NoDup|].
    intros m (_ & h & ? & ? & _)%dedup_loop_elem. exists h. set_solver.
  - intros Hnd Hall. apply dedup_loop_fixed; [done|].
    intros m Hm. destruct (proj1 (Forall_forall _ _) Hall m Hm) as (h & ? & ?).
    exists h. set_solver.
Qed.

Lemma dedup_is_idempotent_witness : unique_of [song_a; song_b] = [song_a; song_b].
Proof.
  apply (proj2 (dedup_is_idempotent [song_a; song_b])).
  - repeat constructor; set_solver.
  - repeat constructor; eexists; (split; [reflexivity|discriminate]).
Defined.

(** ** Loading the catalogs *)

Section CollectFacts.

Variable float_of_str : string → option spec_float.
Variable catalog : string → result (list beatmap).
Variable level_ranges_int : gmap string (Z * Z).

Abbreviation gather := (collect float_of_str catalog).
Abbreviation part := (table_part float_of_str catalog level_ranges_int).

Lemma collect_spec selected_tables combined_maps fetched :
  match gather selected_tables level_ranges_int combined_maps fetched with
  | (inr combined, fetched') =>
      Forall (loads catalog) selected_tables
      ∧ combined = combined_maps ++ mjoin (part <$> selected_tables)
      ∧ fetched' = fetched ++ omap JSON_URLS selected_tables
  | (inl table, fetched') =>
      ∃ before after catalog_url e,
        selected_tables = before ++ table :: after
        ∧ Forall (loads catalog) before
        ∧ JSON_URLS table = Some catalog_url
        ∧ catalog catalog_url = inl e
        ∧ fetched' = fetched ++ omap JSON_URLS before ++ [catalog_url]
  end.
Proof.
  revert combined_maps fetched.
  induction selected_tables as [|table rest IH]; intros combined_maps fetched.
  - simpl. by rewrite !app_nil_r.
  - cbn [collect]. unfold table_part at 1. csimpl.
    destruct (JSON_URLS table) as [catalog_url|] eqn:Hurl.
    + destruct (catalog catalog_url) as [e|maps] eqn:Hcat.
      * by exists [], rest, catalog_url, e.
      * unfold range_of.
        destruct (default (0, 20) (level_ranges_int !! table)) as [min_i max_i].
        specialize (IH (level_loop float_of_str maps min_i max_i combined_maps)
                       (fetched ++ [catalog_url])).
        destruct (gather rest _ _ _) as [[failed|combined] fetched'].
        -- destruct IH as (before & after & url' & e & -> & Hloads & ? & ? & ->).
           exists (table :: before), after, url', e. csimpl. rewrite Hurl. csimpl.
           rewrite <- !app_assoc. repeat split; try done.
           apply Forall_cons. split; [|done].
           intros u Hu. exists maps. congruence.
        -- destruct IH as (Hloads & -> & ->). rewrite level_loop_filter.
           rewrite <- !app_assoc. repeat split; try done.
           apply Forall_cons. split; [|done].
           intros u Hu. exists maps. congruence.
    + specialize (IH combined_maps fetched).
      destruct (gather rest _ _ _) as [[failed|combined] fetched'].
      * destruct IH as (before & after & url' & e & -> & Hloads & ? & ? & ->).
        exists (table :: before), after, url', e. csimpl. rewrite Hurl.
        repeat split; try done.
        apply Forall_cons. split; [|done]. intros u Hu. congruence.
      * destruct IH as (Hloads & -> & ->). repeat split; try done.
        apply Forall_cons. split; [|done]. intros u Hu. congruence.
Qed.

(** X15.  When every catalog loads, [combined_maps] is the concatenation,
    in selection order, of what each selected table contributes: the
    entries of its catalog within its own bounds (those of
    [level_ranges_int], or 0 to 20 when the table has none).  A name
    that is not a key of [JSON_URLS] contributes nothing and is not
    requested; the catalogs requested are those of the other names, in
    order. *)
Theorem collect_concatenates_tables
    (selected_tables : list string) (combined : list beatmap) (fetched : list string) :
  gather selected_tables level_ranges_int [] [] = (inr combined, fetched) →
  combined = mjoin (part <$> selected_tables)
  ∧ fetched = omap JSON_URLS selected_tables
  ∧ Forall (loads catalog) selected_tables.
Proof.
  intros Hrun. pose proof (collect_spec selected_tables [] []) as Hspec.
  rewrite Hrun in Hspec. destruct Hspec as (Hloads & Hcombined & Hfetched).
  done.
Qed.

(** X16.  When a catalog fails to load, the table reported is the first
    selected one whose catalog fails, its url is the last one requested,
    and no catalog of a later table is requested. *)
Theorem collect_stops_at_first_failure
    (selected_tables : list string) (table : string) (fetched : list string) :
  gather selected_tables level_ranges_int [] [] = (inl table, fetched) →
  ∃ before after catalog_url e,
    selected_tables = before ++ table :: after
    ∧ Forall (loads catalog) before
    ∧ JSON_URLS table = Some catalog_url
    ∧ catalog catalog_url = inl e
    ∧ fetched = omap JSON_URLS before ++ [catalog_url].
Proof.
  intros Hrun. pose proof (collect_spec selected_tables [] []) as Hspec.
  rewrite Hrun in Hspec. exact Hspec.
Qed.

End CollectFacts.

Lemma collect_concatenates_tables_witness :
  [song_a; song_c; song_a]
  = mjoin (table_part float_of_digits sample_catalog {[ "4K" := (0, 13) ]}
             <$> ["7K + 8K"; "no such table"; "4K"])
  ∧ ["https://air-afother.github.io/osu-table/osu_mania_7k_8k_final.json";
     "https://air-afother.github.io/osu-table/osu_mania_4k_final.json"]
    = omap JSON_URLS ["7K + 8K"; "no such table"; "4K"]
  ∧ Forall (loads sample_catalog) ["7K + 8K"; "no such table"; "4K"].
Proof.
  apply (collect_concatenates_tables float_of_digits sample_catalog
           {[ "4K" := (0, 13) ]} ["7K + 8K"; "no such table"; "4K"]).
  reflexivity.
Defined.

Lemma collect_stops_at_first_failure_witness :
  ∃ before after catalog_url e,
    ["7K + 8K"; "4K"; "7K + 8K"] = before ++ "4K" :: after
    ∧ Forall (loads half_catalog) before
    ∧ JSON_URLS "4K" = Some catalog_url
    ∧ half_catalog catalog_url = inl e
    ∧ ["https://air-afother.github.io/osu-table/osu_mania_7k_8k_final.json";
       "https://air-afother.github.io/osu-table/osu_mania_4k_final.json"]
      = omap JSON_URLS before ++ [catalog_url].
Proof.
  apply (collect_stops_at_first_failure float_of_digits half_catalog ∅
           ["7K + 8K"; "4K"; "7K + 8K"]).
  reflexivity.
Defined.

(** ** The task as a whole *)

Lemma progress_fold (total : nat) (now : spec_float) (ui : list ui_event)
    (ds : list nat) :
  foldl (λ obs d, task_progress d total now obs) ui ds
  = ui ++ mjoin ((λ d, [ProgressBar d total; StatusEta d total now; Count d total])
                   <$> ds).
Proof.
  revert ui. induction ds as [|d ds IH]; intros ui; csimpl.
  - by rewrite app_nil_r.
  - rewrite IH. unfold task_progress. by rewrite <- app_assoc.
Qed.

Lemma task_observer can_open service missing_maps download_root earlier now ui :
  observer (download_missing_maps can_open service task_progress missing_maps
              download_root earlier now ui).1
  = ui ++ progress_events (length missing_maps) now (length missing_maps).
Proof.
  unfold download_missing_maps. rewrite loop_observer. simpl.
  apply progress_fold.
Qed.

Lemma progress_has_no_button total now n :
  button_states (progress_events total now n) = [].
Proof.
  unfold progress_events, button_states. generalize (seq 1 n).
  intros ds. induction ds as [|d ds IH]; [done|]. csimpl. apply IH.
Qed.


Lemma button_states_app ui1 ui2 :
  button_states (ui1 ++ ui2) = button_states ui1 ++ button_states ui2.
Proof. apply omap_app. Qed.

Lemma info_texts_app ui1 ui2 :
  info_texts (ui1 ++ ui2) = info_texts ui1 ++ info_texts ui2.
Proof. apply omap_app. Qed.

Lemma inventory_ui_quiet db :
  button_states (get_existing_md5 db).2 = []
  ∧ info_texts (get_existing_md5 db).2 = [].
Proof. by destruct db. Qed.

Lemma request_of_Some m o u :
  request_of m o = Some u →
  ∃ id, extract_beatmapset_id (url m) = Some id ∧ u = NERINYAN_BASE +:+ id.
Proof.
  unfold request_of. destruct (issues_request o); [|done].
  destruct (extract_beatmapset_id (url m)) as [id|]; [|done].
  intros [= <-]. by exists id.
Qed.

(** Splits a goal about [task] into the paths of the function. *)
Ltac task_paths :=
  unfold task;
  match goal with
  | |- context [get_existing_md5 ?db] =>
      pose proof (inventory_ui_quiet db) as [Hbtn_db Hinfo_db];
      destruct (get_existing_md5 db) as [existing ui_db] eqn:Hdb;
      simpl in Hbtn_db, Hinfo_db
  end;
  match goal with
  | |- context [decide (?s = ∅)] => destruct (decide (s = ∅)) as [Hempty|Hnonempty]
  end;
  [|match goal with
    | |- context [collect ?f ?c ?ts ?rs [] []] =>
        pose proof (collect_spec f c rs ts [] []) as Hspec;
        destruct (collect f c ts rs [] []) as [[failed|combined] fetched] eqn:Hcollect
    end;
    [|match goal with
      | |- context [missing_of ?u ?e] =>
          destruct (missing_of u e) as [|m0 missing'] eqn:Hmissing
      end;
      [|match goal with
        | |- context [negb (?ask "Confirm download")] =>
            destruct (ask "Confirm download") eqn:Hconfirm; cbn [negb]
        end;
        [match goal with
         | |- context [download_missing_maps ?co ?sv ?cb ?mm ?root ?ea ?now ?ui] =>
             pose proof (task_observer co sv mm root ea now ui) as Hobs;
             destruct (download_missing_maps co sv cb mm root ea now ui)
               as [st outs] eqn:Hrun;
             cbn [fst] in Hobs
         end|]]]].

Section TaskMore.

Variable can_open : string → bool.
Variable float_of_str : string → option spec_float.
Variable catalog : string → result (list beatmap).
Variable service : list string → string → reply.
Variable read_zip : bytes → option (list (string * bytes) * bool).
Variable listdir : gmap string entry → list string.
Variable ask : string → bool.
Variable now : spec_float.

Abbreviation run_task :=
  (task can_open float_of_str catalog service read_zip listdir ask now).

(** X18.  Unless the user confirms, nothing is downloaded: when the
    answer to the confirmation is no, the task sends no download
    request, extracts and removes nothing, and leaves the output
    directory as it was (not even creating it). *)
Theorem no_download_without_confirmation
    (selected_tables : list string) (level_ranges_int : gmap string (Z * Z))
    (auto_extract : bool) (output_path : option (gmap string entry))
    (db : option (list (option string))) :
  ask "Confirm download" = false →
  let res := run_task selected_tables level_ranges_int auto_extract output_path db in
  download_requests res = [] ∧ fs_log res = [] ∧ output_dir res = output_path.
Proof.
  intros Hno res. unfold res. task_paths; [done..| |done]. congruence.
Qed.

(** X19.  Every download the task requests is for an entry of the
    catalog of a selected table, with a level within the bounds of that
    table, a non-empty hash that the local inventory does not hold, and
    a url that carries the beatmapset id requested. *)
Theorem downloads_are_missing_maps
    (selected_tables : list string) (level_ranges_int : gmap string (Z * Z))
    (auto_extract : bool) (output_path : option (gmap string entry))
    (db : option (list (option string))) (download_url : string) :
  download_url
    ∈ download_requests
        (run_task selected_tables level_ranges_int auto_extract output_path db) →
  ∃ table catalog_url maps m id h,
    table ∈ selected_tables
    ∧ JSON_URLS table = Some catalog_url
    ∧ catalog catalog_url = inr maps
    ∧ m ∈ maps
    ∧ level_ok float_of_str (range_of level_ranges_int table).1
        (range_of level_ranges_int table).2 m = true
    ∧ md5 m = Some h ∧ h ≠ "" ∧ (Some h ∉ (get_existing_md5 db).1)
    ∧ extract_beatmapset_id (url m) = Some id
    ∧ download_url = NERINYAN_BASE +:+ id.
Proof.
  task_paths; try (cbn [download_requests]; by inversion 1).
  assert (download_url ∈ requests st →
          ∃ m, m ∈ m0 :: missing'
               ∧ ∃ id, extract_beatmapset_id (url m) = Some id
                       ∧ download_url = NERINYAN_BASE +:+ id) as Hreq.
  { unfold download_missing_maps in Hrun.
    pose proof (loop_requests can_open service task_progress (length (m0 :: missing')) now
                  (m0 :: missing')
                  (RunState (default ∅ output_path) [] 0%nat
                     (([Button false; ProgressReset; Status "Preparing..."; Count 0 0]
                       ++ ui_db) ++ [Question "Confirm download" true]))) as Hlog.
    rewrite Hrun in Hlog. cbn [fst snd requests] in Hlog. rewrite Hlog.
    intros ([m o] & Hin & Hsome)%list_elem_of_omap.
    exists m. split; [by eapply elem_of_zip_l|]. by eapply request_of_Some. }
  match goal with
  | |- _ ∈ download_requests ?r → _ =>
      assert (download_requests r = requests st) as ->
  end.
  { destruct auto_extract; [by destruct (extract_osz_files _ _ _ _)|].
    destruct (ask "Extract now?"); [by destruct (extract_osz_files _ _ _ _)|done]. }
  intros Hin. destruct (Hreq Hin) as (m & Hm & id & Hid & ->).
  rewrite <- Hmissing in Hm. apply list_elem_of_filter in Hm as [Hnew Hm].
  apply dedup_loop_elem in Hm as (Hm & h & Hh & Hne & _).
  destruct Hspec as (_ & -> & _). simpl in Hm.
  apply list_elem_of_join in Hm as (l & Hm & Hl).
  apply list_elem_of_fmap in Hl as (table & -> & Htable).
  unfold table_part in Hm.
  destruct (JSON_URLS table) as [catalog_url|] eqn:Hurl; [|by inversion Hm].
  destruct (catalog catalog_url) as [e|maps] eqn:Hcat; [by inversion Hm|].
  apply list_elem_of_filter in Hm as [Hlevel Hm].
  exists table, catalog_url, maps, m, id, h. rewrite Hh in Hnew. done.
Qed.

End TaskMore.

Lemma no_download_without_confirmation_witness :
  let res := task accepts_all float_of_digits sample_catalog (answer_with plain_response)
               sample_zip listing always_no S754_nan ["4K"] ∅ true None
               (Some [Some "zz99"]) in
  download_requests res = [] ∧ fs_log res = [] ∧ output_dir res = None.
Proof.
  apply (no_download_without_confirmation accepts_all float_of_digits sample_catalog
           (answer_with plain_response) sample_zip listing always_no S754_nan
           ["4K"] ∅ true None (Some [Some "zz99"])).
  reflexivity.
Defined.

Lemma downloads_are_missing_maps_witness :
  ∃ table catalog_url maps m id h,
    table ∈ ["4K"]
    ∧ JSON_URLS table = Some catalog_url
    ∧ sample_catalog catalog_url = inr maps
    ∧ m ∈ maps
    ∧ level_ok float_of_digits (range_of {[ "4K" := (0, 13) ]} table).1
        (range_of {[ "4K" := (0, 13) ]} table).2 m = true
    ∧ md5 m = Some h ∧ h ≠ "" ∧ (Some h ∉ (get_existing_md5 (Some [Some "zz99"])).1)
    ∧ extract_beatmapset_id (url m) = Some id
    ∧ "https://api.nerinyan.moe/d/101" = NERINYAN_BASE +:+ id.
Proof.
  apply (downloads_are_missing_maps accepts_all float_of_digits sample_catalog
           (answer_with plain_response) sample_zip listing always_yes S754_nan
           ["4K"] {[ "4K" := (0, 13) ]} false None (Some [Some "zz99"])).
  vm_compute. apply list_elem_of_here.
Defined.

Section TaskExtraction.

Variable can_open : string → bool.
Variable float_of_str : string → option spec_float.
Variable catalog : string → result (list beatmap).
Variable service : list string → string → reply.
Variable read_zip : bytes → option (list (string * bytes) * bool).
Variable listdir : gmap string entry → list string.
Variable ask : string → bool.
Variable now : spec_float.
Hypothesis listdir_complete :
  ∀ dir name, name ∈ listdir dir ↔ is_Some (dir !! name).



End TaskExtraction.


(** ** The window and the remaining time *)

Example clock_readings :
  float_of_int 1000 = inr clock_1000 ∧ float_of_int 1090 = inr clock_1090.
Proof. split; reflexivity. Qed.

(** Ninety seconds for the first of three maps: three minutes left. *)
Example eta_after_first_of_three :
  eta 1 3 clock_1000 clock_1090 = inr (3, 0)
  ∧ eta 2 3 clock_1000 clock_1090 = inr (0, 45)
  ∧ eta 3 3 clock_1000 clock_1090 = inr (0, 0).
Proof. repeat split; reflexivity. Qed.

(** X21.  What the window hands to the task: the selected tables are
    tables of the window, each at most once and in the order of the
    rows; each of them has a catalog url and a link url, and its bounds
    are the values of its two spin boxes.  Started from the window, the
    task therefore never skips a selected table and never falls back
    on the bounds 0 to 20. *)
Theorem window_selection_is_complete (checked : string → bool)
    (min_of max_of : string → Z) :
  let selection := get_selected_tables_and_ranges checked min_of max_of in
  selection.1 `sublist_of` GUI_TABLES
  ∧ length (omap JSON_URLS selection.1) = length selection.1
  ∧ ∀ table, table ∈ selection.1 →
      is_Some (JSON_URLS table) ∧ is_Some (TABLE_URLS table)
      ∧ range_of selection.2 table = (min_of table, max_of table).
Proof.
  intros selection. split; [apply sublist_filter|]. split.
  - unfold selection, get_selected_tables_and_ranges, GUI_TABLES. cbn [fst].
    rewrite !filter_cons, filter_nil.
    by destruct (decide (checked "7K + 8K" = true)),
                (decide (checked "4K" = true)).
  - intros table [_ Htable]%list_elem_of_filter.
    assert (table = "7K + 8K" ∨ table = "4K") as [-> | ->].
    { unfold GUI_TABLES in Htable. set_solver. }
    + split; [eexists; reflexivity|]. split; [eexists; reflexivity|].
      unfold range_of, selection, get_selected_tables_and_ranges, GUI_TABLES.
      cbn [snd]. rewrite !fmap_cons, !list_to_map_cons.
      by rewrite lookup_insert_eq.
    + split; [eexists; reflexivity|]. split; [eexists; reflexivity|].
      unfold range_of, selection, get_selected_tables_and_ranges, GUI_TABLES.
      cbn [snd]. rewrite !fmap_cons, !list_to_map_cons.
      by rewrite lookup_insert_ne, lookup_insert_eq.
Qed.

Lemma window_selection_is_complete_witness :
  let selection :=
    get_selected_tables_and_ranges (λ name, bool_decide (name = "7K + 8K"))
      (λ _, 0) (λ _, 13) in
  is_Some (JSON_URLS "7K + 8K") ∧ is_Some (TABLE_URLS "7K + 8K")
  ∧ range_of selection.2 "7K + 8K" = (0, 13).
Proof.
  apply (proj2 (proj2 (window_selection_is_complete
                         (λ name, bool_decide (name = "7K + 8K"))
                         (λ _, 0) (λ _, 13))) "7K + 8K").
  vm_compute. apply list_elem_of_here.
Defined.

(** X22.  Whenever the remaining time can be shown, the seconds are
    between 0 and 59; and at the last call, when [done] equals [total],
    what is shown is 0 minutes and 0 seconds, whatever the clock
    read. *)
Theorem eta_seconds_and_completion (done total : Z) (start_time clock : spec_float)
    (mins secs : Z) :
  eta done total start_time clock = inr (mins, secs) →
  0 ≤ secs < 60 ∧ (done = total → mins = 0 ∧ secs = 0).
Proof.
  unfold eta.
  destruct (if 0 <? done then _ else _) as [e|r] eqn:Hremaining; [done|].
  intros [= <- <-]. split; [by apply Z.mod_pos_bound|].
  intros ->. assert (r = 0) as ->; [|done].
  rewrite Z.sub_diag in Hremaining.
  destruct (0 <? total); [|by injection Hremaining as <-].
  destruct (float_of_int total) as [e|float_done]; [done|].
  change (float_of_int 0) with (inr (S754_zero false) : result spec_float)
    in Hremaining.
  cbv iota beta zeta in Hremaining.
  destruct (SFdiv 53 1024 (SFsub 53 1024 clock start_time) float_done)
    as [s|s| |s m e]; simpl in Hremaining; by try injection Hremaining as <-.
Qed.

Lemma eta_seconds_and_completion_witness :
  0 ≤ 0 < 60 ∧ (3 = 3 → 0 = 0 ∧ 0 = 0).
Proof.
  apply (eta_seconds_and_completion 3 3 clock_1000 clock_1090 0 0).
  reflexivity.
Defined.

(** ** The task: the paths that end before any download *)

Section TaskAborts.

Variable can_open : string → bool.
Variable float_of_str : string → option spec_float.
Variable catalog : string → result (list beatmap).
Variable service : list string → string → reply.
Variable read_zip : bytes → option (list (string * bytes) * bool).
Variable listdir : gmap string entry → list string.
Variable ask : string → bool.
Variable now : spec_float.

Abbreviation run_task :=
  (task can_open float_of_str catalog service read_zip listdir ask now).

(** X23.  With a non-empty inventory, a catalog that cannot be loaded
    ends the task: the error box names the table, the catalogs
    requested are those up to the failing one, and there is no question,
    no download request, no extraction and no change to the output
    directory, even when earlier catalogs had loaded. *)
Theorem catalog_failure_aborts
    (selected_tables : list string) (level_ranges_int : gmap string (Z * Z))
    (auto_extract : bool) (output_path : option (gmap string entry))
    (db : option (list (option string))) (table : string) (requested : list string) :
  (get_existing_md5 db).1 ≠ ∅ →
  collect float_of_str catalog selected_tables level_ranges_int [] []
  = (inl table, requested) →
  let res := run_task selected_tables level_ranges_int auto_extract output_path db in
  ErrorBox table ∈ ui res
  ∧ question_titles (ui res) = []
  ∧ catalog_requests res = requested
  ∧ download_requests res = []
  ∧ fs_log res = []
  ∧ output_dir res = output_path.
Proof.
  intros Hinv Hfail res. unfold res. task_paths; simpl in Hinv; try done;
    try congruence.
  injection Hfail as <- <-.
  cbn [ui catalog_requests download_requests fs_log output_dir].
  split; [|split; [|done]].
  - apply elem_of_app. right. apply list_elem_of_here.
  - destruct db as [rows|]; simpl in Hdb; injection Hdb as <- <-; done.
Qed.

(** X24.  With a non-empty inventory and all catalogs loaded, when the
    inventory holds the hash of every collected entry that has one, the
    task says that all maps are present and stops: it asks nothing,
    requests no download and does not touch the output directory. *)
Theorem nothing_missing_asks_nothing
    (selected_tables : list string) (level_ranges_int : gmap string (Z * Z))
    (auto_extract : bool) (output_path : option (gmap string entry))
    (db : option (list (option string))) (collected : list beatmap)
    (requested : list string) :
  (get_existing_md5 db).1 ≠ ∅ →
  collect float_of_str catalog selected_tables level_ranges_int [] []
  = (inr collected, requested) →
  (∀ m h, m ∈ collected → md5 m = Some h → h ≠ "" →
          Some h ∈ (get_existing_md5 db).1) →
  let res := run_task selected_tables level_ranges_int auto_extract output_path db in
  info_texts (ui res) = ["All maps in the selected range are already present."]
  ∧ question_titles (ui res) = []
  ∧ download_requests res = []
  ∧ fs_log res = []
  ∧ output_dir res = output_path.
Proof.
  intros Hinv Hload Hheld res. unfold res. task_paths; simpl in Hinv, Hheld;
    try done; try congruence.
  - cbn [ui]. rewrite !info_texts_app, Hinfo_db. split; [done|].
    split; [|done].
    destruct db as [rows|]; simpl in Hdb; injection Hdb as <- <-; done.
  - exfalso. injection Hload as <- <-.
    assert (m0 ∈ missing_of (unique_of combined) existing) as Hm0
      by (rewrite Hmissing; apply list_elem_of_here).
    apply list_elem_of_filter in Hm0 as [Hnew Hm0].
    apply dedup_loop_elem in Hm0 as (Hm0 & h & Hh & Hne & _).
    apply Hnew. rewrite Hh. by eapply Hheld.
  - exfalso. injection Hload as <- <-.
    assert (m0 ∈ missing_of (unique_of combined) existing) as Hm0
      by (rewrite Hmissing; apply list_elem_of_here).
    apply list_elem_of_filter in Hm0 as [Hnew Hm0].
    apply dedup_loop_elem in Hm0 as (Hm0 & h & Hh & Hne & _).
    apply Hnew. rewrite Hh. by eapply Hheld.
Qed.

End TaskAborts.

Lemma catalog_failure_aborts_witness :
  let res := task accepts_all float_of_digits half_catalog (answer_with plain_response)
               sample_zip listing always_yes S754_nan ["7K + 8K"; "4K"] ∅ true None
               (Some [Some "zz99"]) in
  ErrorBox "4K" ∈ ui res
  ∧ question_titles (ui res) = []
  ∧ catalog_requests res
    = ["https://air-afother.github.io/osu-table/osu_mania_7k_8k_final.json";
       "https://air-afother.github.io/osu-table/osu_mania_4k_final.json"]
  ∧ download_requests res = []
  ∧ fs_log res = []
  ∧ output_dir res = None.
Proof.
  apply (catalog_failure_aborts accepts_all float_of_digits half_catalog
           (answer_with plain_response) sample_zip listing always_yes S754_nan
           ["7K + 8K"; "4K"] ∅ true None (Some [Some "zz99"]) "4K").
  - intros [Hdb|Hdb]%inventory_empty_iff; discriminate.
  - reflexivity.
Defined.

Lemma nothing_missing_asks_nothing_witness :
  let res := task accepts_all float_of_digits sample_catalog (answer_with plain_response)
               sample_zip listing always_yes S754_nan ["4K"] {[ "4K" := (0, 13) ]}
               true None (Some [Some "aa11"]) in
  info_texts (ui res) = ["All maps in the selected range are already present."]
  ∧ question_titles (ui res) = []
  ∧ download_requests res = []
  ∧ fs_log res = []
  ∧ output_dir res = None.
Proof.
  apply (nothing_missing_asks_nothing accepts_all float_of_digits sample_catalog
           (answer_with plain_response) sample_zip listing always_yes S754_nan
           ["4K"] {[ "4K" := (0, 13) ]} true None (Some [Some "aa11"]) [song_a]
           ["https://air-afother.github.io/osu-table/osu_mania_4k_final.json"]).
  - intros [Hdb|Hdb]%inventory_empty_iff; discriminate.
  - reflexivity.
  - intros m h Hm%list_elem_of_singleton Hh _. subst m. injection Hh as <-.
    apply elem_of_list_to_set. apply list_elem_of_here.
Defined.

(** ** The thread: where it returns and where it dies *)

Section ThreadFacts.

Variable can_open : string → bool.
Variable float_of_str : string → option spec_float.
Variable service : list string → string → reply.
Variable read_zip : bytes → option (list (string * bytes) * bool).
Variable listdir : gmap string entry → list string.
Variable ask : string → bool.
Variable now : spec_float.

Lemma level_loop_raw_objects (maps : list beatmap) (min_i max_i : Z)
    (combined_maps : list beatmap) :
  level_loop_raw float_of_str (Some <$> maps) min_i max_i combined_maps
  = inr (level_loop float_of_str maps min_i max_i combined_maps).
Proof.
  revert combined_maps. induction maps as [|m maps IH]; intros combined_maps; [done|].
  csimpl. destruct (py_float float_of_str (level m)) as [e|lvl]; [apply IH|].
  destruct (in_range min_i max_i lvl); apply IH.
Qed.

Lemma collect_raw_objects (catalog : string → result (list beatmap))
    (selected_tables : list string) (level_ranges_int : gmap string (Z * Z))
    (combined_maps : list beatmap) (fetched : list string) :
  collect_raw float_of_str (objects_only catalog) selected_tables level_ranges_int
    combined_maps fetched
  = match collect float_of_str catalog selected_tables level_ranges_int
            combined_maps fetched with
    | (inl table, requested) => (LoadFailed table, requested)
    | (inr collected_maps, requested) => (Collected collected_maps, requested)
    end.
Proof.
  revert combined_maps fetched.
  induction selected_tables as [|table rest IH]; intros combined_maps fetched; [done|].
  simpl. destruct (JSON_URLS table) as [catalog_url|]; [|apply IH].
  unfold objects_only. destruct (catalog catalog_url) as [e|maps]; [done|].
  destruct (default (0, 20) (level_ranges_int !! table)) as [min_i max_i].
  rewrite level_loop_raw_objects. apply IH.
Qed.

(** When the database answers, every catalog element is an object and
    the output directory can be made, the thread is [task], and it
    returns. *)
Lemma run_thread_is_task (catalog : string → result (list beatmap))
    (selected_tables : list string) (level_ranges_int : gmap string (Z * Z))
    (auto_extract : bool) (output_path : option (gmap string entry))
    (db : option (list (option string))) :
  run_thread can_open float_of_str (objects_only catalog) service read_zip listdir
    ask now selected_tables level_ranges_int auto_extract output_path None
    (readable db)
  = (task can_open float_of_str catalog service read_zip listdir ask now
       selected_tables level_ranges_int auto_extract output_path db, Returned).
Proof.
  unfold run_thread, task.
  assert (query_song_db (readable db) = inr (get_existing_md5 db)) as ->
    by by destruct db.
  destruct (get_existing_md5 db) as [existing_md5 ui_db].
  destruct (decide (existing_md5 = ∅)); [done|].
  rewrite collect_raw_objects.
  destruct (collect _ _ _ _ _ _) as [[table|combined_maps] requested]; [done|].
  destruct (missing_of _ _) as [|m0 missing_maps]; [done|].
  destruct (ask "Confirm download"); cbn [negb]; [|done].
  destruct (download_missing_maps _ _ _ _ _ _ _ _) as [st outs].
  destruct auto_extract.
  - by destruct (extract_osz_files _ _ _ _).
  - destruct (ask "Extract now?"); [|done].
    by destruct (extract_osz_files _ _ _ _).
Qed.

(** X17.  The start button is disabled once, at the very beginning of
    the thread.  On every run on which [task] returns, at any of its
    return points, it has been enabled once after that, so the button
    is usable again; on every run on which an exception leaves [task]
    it has not, and the button stays disabled.  The second case is
    met: on a database that cannot be queried the thread ends with the
    exception of the query. *)
Theorem start_button_is_enabled_again
    (catalog : string → result (list (option beatmap)))
    (selected_tables : list string) (level_ranges_int : gmap string (Z * Z))
    (auto_extract : bool) (output_path : option (gmap string entry))
    (makedirs_error : option exn) (db : song_db) :
  let run := run_thread can_open float_of_str catalog service read_zip listdir
               ask now selected_tables level_ranges_int auto_extract output_path
               makedirs_error db in
  match run.2 with
  | Returned => button_states (ui run.1) = [false; true]
  | Died _ => button_states (ui run.1) = [false]
  end
  ∧ (∀ e, db = DbUnreadable e → run.2 = Died e).
Proof.
  intros run. unfold run, run_thread. split.
  - destruct db as [|e|rows]; cbn [query_song_db get_existing_md5]; [|done|].
    all: destruct (decide _); [done|].
    all: destruct (collect_raw _ _ _ _ _ _) as [[table|e|combined_maps] requested];
      [done..|].
    all: destruct (missing_of _ _) as [|m0 missing_maps]; [done|].
    all: destruct (ask "Confirm download"); cbn [negb]; [|done].
    all: destruct makedirs_error as [e|]; [done|].
    all: match goal with
         | |- context [download_missing_maps ?co ?sv ?cb ?mm ?root ?ea ?t ?obs] =>
             pose proof (task_observer co sv mm root ea t obs) as Hobs;
             destruct (download_missing_maps co sv cb mm root ea t obs) as [st outs]
         end.
    all: cbn [fst] in Hobs.
    all: destruct auto_extract;
      [|destruct (ask "Extract now?")];
      try destruct (extract_osz_files _ _ _ _) as [dir log]; cbn [fst snd ui].
    all: rewrite !button_states_app, Hobs, !button_states_app.
    all: by rewrite progress_has_no_button.
  - by intros e ->.
Qed.

End ThreadFacts.

Lemma start_button_is_enabled_again_witness :
  let run := run_thread accepts_all float_of_digits (objects_only sample_catalog)
               (answer_with plain_response) sample_zip listing always_yes S754_nan
               ["4K"] ∅ true None None db_without_table in
  button_states (ui run.1) = [false] ∧ run.2 = Died OperationalError.
Proof.
  pose proof (start_button_is_enabled_again accepts_all float_of_digits
                (answer_with plain_response) sample_zip listing always_yes S754_nan
                (objects_only sample_catalog) ["4K"] ∅ true None None
                db_without_table) as [Hbutton Hdied].
  split; [exact Hbutton|]. exact (Hdied OperationalError eq_refl).
Defined.

(** The other two exits: an element that is not an object, met after
    the inventory was read, and an output directory that cannot be
    made, met after the download was confirmed.  In both the button
    stays disabled and nothing was requested from the download
    service. *)
Example thread_dies_on_malformed_entry :
  let run := run_thread accepts_all float_of_digits mixed_catalog
               (answer_with plain_response) sample_zip listing always_yes S754_nan
               ["4K"] ∅ true None None (DbRows [Some "zz99"]) in
  run.2 = Died AttributeError
  ∧ button_states (ui run.1) = [false]
  ∧ download_requests run.1 = [].
Proof. repeat split; vm_compute; reflexivity. Qed.

Example thread_dies_without_output_directory :
  let run := run_thread accepts_all float_of_digits (objects_only sample_catalog)
               (answer_with plain_response) sample_zip listing always_yes S754_nan
               ["4K"] ∅ true None (Some OSError) (DbRows [Some "zz99"]) in
  run.2 = Died OSError
  ∧ button_states (ui run.1) = [false]
  ∧ question_titles (ui run.1) = ["Confirm download"]
  ∧ download_requests run.1 = [].
Proof. repeat split; vm_compute; reflexivity. Qed.

(** The same run with a directory that can be made returns. *)
Example thread_returns :
  let run := run_thread accepts_all float_of_digits (objects_only sample_catalog)
               (answer_with plain_response) sample_zip listing always_yes S754_nan
               ["4K"] ∅ true None None (DbRows [Some "zz99"]) in
  run.2 = Returned ∧ button_states (ui run.1) = [false; true].
Proof. repeat split; vm_compute; reflexivity. Qed.
